(** * PennyLane-Qulacs device: a shallow embedding of [qulacs_device.py]

    The development follows [src/pennylane_qulacs/qulacs_device.py]:
    the module-level matrix constants, [_reverse_state], [hermitian] and
    the methods [apply], [analytic_probability] and [state] of
    [QulacsDevice].  The simulation engine (qulacs) and the numerical
    routines of numpy that work on floating-point numbers are interfaces
    of the model; everything the device itself computes is executable. *)

From Stdlib Require Import String Bool ZArith QArith List Arith Lia.
From Stdlib Require Import Permutation.
Import ListNotations.
Local Open Scope nat_scope.

Set Implicit Arguments.

(* ================================================================== *)
(** * Python exceptions and results *)
(* ================================================================== *)

(** The exceptions the module can raise, one constructor per raising
    site.  The comment gives the spec's name of the error kind. *)
Inductive exn : Type :=
| DeviceError_after_other_operations  (* SequencingError: apply, line 193 *)
| ValueError_state_vector_length      (* LengthError: "State vector must be of length 2**wires." *)
| ValueError_not_normalized           (* NormalizationError *)
| ValueError_basis_bits               (* DomainError *)
| ValueError_basis_length             (* LengthError: BasisState *)
| ValueError_unitary_shape            (* ShapeError *)
| ValueError_not_square               (* ValidationError: "Expectation must be a square matrix." *)
| ValueError_not_hermitian            (* ValidationError: "Expectation must be Hermitian." *)
| ValueError_cannot_reshape           (* numpy reshape; InvalidStateLength *)
| OverflowError_int_of_infinity       (* int(np.log2(0)) *)
| IndexError                          (* sequence subscript out of range *)
| KeyError (key : string)             (* _operation_map[op.name]; UnsupportedOperationError *)
| TypeError                           (* a value of the wrong kind, or a call with the wrong arity *)
| AttributeError                      (* method call on None *)
| EngineError.                        (* raised inside the simulation engine *)

(** The error kinds of the specification and the kind under which each
    raising site is reported.  Both failures of the amplitude reversal
    are its InvalidStateLength; what the data model leaves out (a
    subscript out of range, a value of the wrong kind, an engine
    failure) has no kind of its own. *)
Inductive error_kind : Type :=
| SequencingError | LengthError | NormalizationError | DomainError
| ShapeError | ValidationError | UnsupportedOperationError
| InvalidStateLength | OtherError.

Definition kind_of (e : exn) : error_kind :=
  match e with
  | DeviceError_after_other_operations => SequencingError
  | ValueError_state_vector_length => LengthError
  | ValueError_not_normalized => NormalizationError
  | ValueError_basis_bits => DomainError
  | ValueError_basis_length => LengthError
  | ValueError_unitary_shape => ShapeError
  | ValueError_not_square => ValidationError
  | ValueError_not_hermitian => ValidationError
  | ValueError_cannot_reshape => InvalidStateLength
  | OverflowError_int_of_infinity => InvalidStateLength
  | KeyError _ => UnsupportedOperationError
  | IndexError | TypeError | AttributeError | EngineError => OtherError
  end.

Inductive result (A : Type) : Type :=
| Ok (a : A)
| Err (e : exn).
Arguments Ok {A} a.
Arguments Err {A} e.

Definition bindR {A B} (r : result A) (k : A -> result B) : result B :=
  match r with
  | Ok a => k a
  | Err e => Err e
  end.

Declare Scope result_scope.
Delimit Scope result_scope with result.
Notation "x <- r ;; k" := (bindR r (fun x => k))
  (at level 61, r at next level, right associativity) : result_scope.

(* ================================================================== *)
(** * numpy arrays: shape, C-order data, reshape, transpose, flatten *)
(* ================================================================== *)

Module Np.
Section NdArray.
Variable A : Type.

(** An n-dimensional array is its shape and its elements in C order. *)
Record ndarray : Type := mk_ndarray { shape : list nat; data : list A }.

Definition size_of (s : list nat) : nat := fold_right Nat.mul 1 s.

(** [np.array(l)] of a flat sequence. *)
Definition array (l : list A) : ndarray := mk_ndarray [length l] l.

(** [a.reshape(s)]: the element count must agree. *)
Definition reshape (a : ndarray) (s : list nat) : result ndarray :=
  if size_of s =? length (data a)
  then Ok (mk_ndarray s (data a))
  else Err ValueError_cannot_reshape.

(** [np.unravel_index] and [np.ravel_multi_index] in C order. *)
Fixpoint unravel_index (s : list nat) (j : nat) : list nat :=
  match s with
  | [] => []
  | _ :: ds => (j / size_of ds) :: unravel_index ds (j mod size_of ds)
  end.

Fixpoint ravel_multi_index (s idx : list nat) : nat :=
  match s, idx with
  | _ :: ds, i :: is' => i * size_of ds + ravel_multi_index ds is'
  | _, _ => 0
  end.

(** [a.T]: all axes reversed.  The element of the result at
    multi-index [idx] is the element of [a] at [rev idx]. *)
Definition transpose_source (s : list nat) (j : nat) : nat :=
  ravel_multi_index s (rev (unravel_index (rev s) j)).

Definition T (a : ndarray) : ndarray :=
  mk_ndarray (rev (shape a))
    match data a with
    | [] => []
    | d0 :: _ =>
        map (fun j => nth (transpose_source (shape a) j) (data a) d0)
            (seq 0 (length (data a)))
    end.

Definition flatten (a : ndarray) : list A := data a.

Definition well_shaped (a : ndarray) : Prop :=
  size_of (shape a) = length (data a).
End NdArray.

(** A multi-index is valid for a shape when every component is below
    the extent of its axis. *)
Definition valid_index (s idx : list nat) : Prop := Forall2 lt idx s.

(** [int(np.log2(n))] for a length [n]: [np.log2(0)] is [-inf], whose
    conversion to [int] raises.  On a power of two the floating-point
    logarithm is exact; on any other length the [reshape] that follows
    fails whichever neighbouring integer the conversion gives. *)
Definition int_log2 (n : nat) : result nat :=
  if n =? 0 then Err OverflowError_int_of_infinity else Ok (Nat.log2 n).
End Np.

(* ================================================================== *)
(** * Wire reordering *)
(* ================================================================== *)

(** [l[::-1]] *)
Definition slice_reversed {A} (l : list A) : list A := rev l.

(** [l[::1]] *)
Definition slice_step_one {A} (l : list A) : list A := l.

Section ReverseState.
Variable A : Type.
Local Open Scope result_scope.

(** [_reverse_state], lines 79-91. *)
Definition _reverse_state (state_vector : list A) : result (list A) :=
  let state_vector' := Np.array state_vector in
  N <- Np.int_log2 (length state_vector) ;;
  reshaped <- Np.reshape state_vector' (repeat 2 N) ;;
  Ok (Np.flatten (Np.T reshaped)).
End ReverseState.

(** The index of a basis state given by its bits, first bit most
    significant: the amplitude of the basis state with the bits [bs]
    on the wires 0, 1, ... of one convention stands at [of_bits bs]. *)
Fixpoint of_bits (bs : list bool) : nat :=
  match bs with
  | [] => 0
  | b :: bs' => (if b then 1 else 0) * 2 ^ length bs' + of_bits bs'
  end.

(** The digits of a basis index as a multi-index of the [(2,...,2)]
    tensor. *)
Definition digits (bs : list bool) : list nat :=
  map (fun b : bool => if b then 1 else 0) bs.

(* ================================================================== *)
(** * Matrix library: the module-level integer constants *)
(* ================================================================== *)

(** Python [int]. *)
Definition int : Type := BinNums.Z.

Module Matrices.
Local Open Scope Z_scope.

Definition matrix : Type := list (list int).

Definition entry (M : matrix) (i j : nat) : int := nth j (nth i M []) 0.

Definition ncols (M : matrix) : nat := length (hd [] M).

(** [np.identity(n)], entries read as integers. *)
Definition identity (n : nat) : matrix :=
  map (fun i => map (fun j => if Nat.eqb i j then 1 else 0) (seq 0 n)) (seq 0 n).

(** [np.diag(v)] of a flat sequence. *)
Definition diag (v : list int) : matrix :=
  map (fun i => map (fun j => if Nat.eqb i j then nth i v 0 else 0)
                    (seq 0 (length v)))
      (seq 0 (length v)).

(** [M[r0:r1, c0:c1] = B] for a block [B] of that very shape. *)
Definition assign_block (M : matrix) (r0 r1 c0 c1 : nat) (B : matrix) : matrix :=
  map (fun ir : nat * list int =>
         let (i, row) := ir in
         map (fun jx : nat * int =>
                let (j, x) := jx in
                if (Nat.leb r0 i && Nat.ltb i r1 && Nat.leb c0 j && Nat.ltb j c1)%bool
                then entry B (i - r0) (j - c0)
                else x)
             (combine (seq 0 (length row)) row))
      (combine (seq 0 (length M)) M).

(** [scipy.linalg.block_diag] of non-empty blocks. *)
Fixpoint block_diag (blocks : list matrix) : matrix :=
  match blocks with
  | [] => []
  | B :: rest =>
      let R := block_diag rest in
      map (fun r => r ++ repeat 0 (ncols R)) B
      ++ map (fun r => repeat 0 (ncols B) ++ r) R
  end.

(** Lines 53-58, 61 and 75-76.  [Y] (complex entries) and [H]
    (entries [1/sqrt 2]) are not integer matrices and are left out. *)
Definition I : matrix := identity 2.
Definition X : matrix := [[0; 1]; [1; 0]].
Definition Z : matrix := [[1; 0]; [0; -1]].
Definition SWAP : matrix := [[1; 0; 0; 0]; [0; 0; 1; 0]; [0; 1; 0; 0]; [0; 0; 0; 1]].
Definition CSWAP : matrix := block_diag [SWAP; I; I].
Definition toffoli : matrix :=
  assign_block (diag (map (fun _ => 1) (seq 0 8))) 0 2 0 2 [[0; 1]; [1; 0]].

(** ** Permutation matrices and the controlled-controlled-not *)

Definition matrix_eqb (M1 M2 : matrix) : bool :=
  Nat.eqb (length M1) (length M2) &&
  forallb (fun rr : list int * list int =>
             Nat.eqb (length (fst rr)) (length (snd rr)) &&
             forallb (fun xy : int * int => Z.eqb (fst xy) (snd xy))
                     (combine (fst rr) (snd rr)))
          (combine M1 M2).

Definition column (M : matrix) (j : nat) : list int :=
  map (fun row => nth j row 0) M.

Definition sum (l : list int) : int := fold_right Z.add 0 l.

(** An [n]x[n] matrix of zeros and ones with one 1 in every row and in
    every column. *)
Definition is_permutation_matrix (n : nat) (M : matrix) : bool :=
  Nat.eqb (length M) n &&
  forallb (fun row =>
             Nat.eqb (length row) n &&
             forallb (fun x => Z.eqb x 0 || Z.eqb x 1) row &&
             Z.eqb (sum row) 1) M &&
  forallb (fun j => Z.eqb (sum (column M j)) 1) (seq 0 n).

(** The basis state to which [M] sends basis state [j]: the row of the
    first non-zero entry of column [j]. *)
Definition image_of (M : matrix) (j : nat) : nat :=
  let fix find (i : nat) (col : list int) : nat :=
    match col with
    | [] => i
    | x :: col' => if Z.eqb x 0 then find (S i) col' else i
    end in
  find 0%nat (column M j).

(** The action of a controlled-controlled-not on the index of a basis
    state, with the control bits at positions [c1], [c2] and the target
    bit at position [t] of the index. *)
Definition ccnot (c1 c2 t : nat) (j : nat) : nat :=
  if Nat.testbit j c1 && Nat.testbit j c2
  then Nat.lxor j (Nat.shiftl 1 t)
  else j.

Definition permutation_matrix (n : nat) (f : nat -> nat) : matrix :=
  map (fun i => map (fun j => if Nat.eqb (f j) i then 1 else 0) (seq 0 n)) (seq 0 n).

(** The basis states with both control bits set, for a placement. *)
Definition controls_set (c1 c2 : nat) (j : nat) : bool :=
  Nat.testbit j c1 && Nat.testbit j c2.

(** The action of a swap of the bits [t1] and [t2] of the index, made
    when the bit [c] of the index is [on]. *)
Definition controlled_swap (on : bool) (c t1 t2 : nat) (j : nat) : nat :=
  if Bool.eqb (Nat.testbit j c) on
  then
    if Bool.eqb (Nat.testbit j t1) (Nat.testbit j t2) then j
    else Nat.lxor j (Nat.lor (Nat.shiftl 1 t1) (Nat.shiftl 1 t2))
  else j.

(** The ways of placing the two controls and the target on the three
    bits of the index: every wire-ordering convention is one of them. *)
Definition bit_assignments : list (nat * nat * nat) :=
  [(2, 1, 0); (1, 2, 0); (2, 0, 1); (0, 2, 1); (1, 0, 2); (0, 1, 2)]%nat.

(** The ways of placing a control and two targets on the three bits of
    the index, up to the order of the targets. *)
Definition swap_assignments : list (nat * nat * nat) :=
  [(2, 1, 0); (1, 2, 0); (0, 2, 1)]%nat.

End Matrices.

(* ================================================================== *)
(** * Floating-point numbers and the numpy routines on them *)
(* ================================================================== *)

(** The device never looks inside a floating-point number: it negates
    angles, conjugates matrix entries and calls numpy's tolerance tests.
    These are the interface of the model. *)
Class Scalars : Type := {
  (** Python [float] *)
  Real : Type;
  (** Python [complex] *)
  Complex : Type;
  (** [np.negative] on a real and on a complex number *)
  negative : Real -> Real;
  cnegative : Complex -> Complex;
  (** [z.conj()] *)
  conj : Complex -> Complex;
  (** an integer entry read as a complex number *)
  of_int : int -> Complex;
  (** [np.isclose(a, b)] with numpy's default tolerances, the test
      [np.allclose] makes on every pair of entries *)
  isclose : Complex -> Complex -> bool;
  (** [np.isclose(np.linalg.norm(v, 2), 1.0, atol=tolerance)] with
      [tolerance = 1e-10] *)
  norm_isclose_one : list Complex -> bool;
  (** [self._abs(z) ** 2] *)
  abs_squared : Complex -> Real
}.

(* ================================================================== *)
(** * The Hermitian-observable validator *)
(* ================================================================== *)

Section Hermitian.
Context {S : Scalars}.

(** A two-dimensional array as the list of its rows. *)
Definition cmatrix : Type := list (list Complex).

(** A nested list is a two-dimensional array when it has a row and all
    rows have the length of the first. *)
Definition is_2d (A : cmatrix) : bool :=
  match A with
  | [] => false
  | r :: rs => forallb (fun r' => length r' =? length r) rs
  end.

(** [A.shape] of a two-dimensional array; the empty list is the
    one-dimensional array of shape [(0,)]. *)
Definition shape_of (A : cmatrix) : list nat :=
  match A with
  | [] => [0]
  | r :: _ => [length A; length r]
  end.

(** [A.conj().T] *)
Definition conj_transpose (A : cmatrix) : cmatrix :=
  map (fun j => map (fun row => match nth_error row j with
                                | Some z => conj z
                                | None => conj (of_int 0%Z)
                                end) A)
      (seq 0 (length (hd [] A))).

(** [np.allclose(A, B)] on arrays of one shape. *)
Definition allclose (A B : cmatrix) : bool :=
  forallb (fun rr : list Complex * list Complex =>
             forallb (fun ab : Complex * Complex => isclose (fst ab) (snd ab))
                     (combine (fst rr) (snd rr)))
          (combine A B).

Local Open Scope result_scope.

(** [hermitian], lines 94-109. *)
Definition hermitian (A : cmatrix) : result cmatrix :=
  match shape_of A with
  | [n0; n1] =>
      if negb (n0 =? n1) then Err ValueError_not_square
      else if negb (allclose A (conj_transpose A)) then Err ValueError_not_hermitian
      else Ok A
  | _ => Err IndexError
  end.

Definition is_square (A : cmatrix) : bool :=
  length A =? length (hd [] A).

End Hermitian.

(* ================================================================== *)
(** * Operations, gates and the simulation engine *)
(* ================================================================== *)

Section DataModel.
Context {S : Scalars}.

(** A parameter of an operation: an angle, an amplitude vector
    ([QubitStateVector]), a sequence of bits ([BasisState]) or a matrix
    ([QubitUnitary]). *)
Inductive PVal : Type :=
| PReal (x : Real)
| PVector (v : list Complex)
| PBits (b : list int)
| PMatrix (m : cmatrix).

(** A PennyLane operation: [op.name], [op.wires], [op.parameters]. *)
Record Operation : Type := mk_op {
  name : string;
  wires : list nat;
  parameters : list PVal
}.

(** [np.negative] on a parameter, elementwise on arrays. *)
Definition np_negative (p : PVal) : PVal :=
  match p with
  | PReal x => PReal (negative x)
  | PVector v => PVector (map cnegative v)
  | PBits b => PBits (map Z.opp b)
  | PMatrix m => PMatrix (map (map cnegative) m)
  end.

(** The constructors of [qulacs.gate] the operation map refers to. *)
Inductive NativeCtor : Type :=
| gate_SWAP | gate_CNOT | gate_CZ | gate_S | gate_Sdag | gate_T | gate_Tdag
| gate_RX | gate_RY | gate_RZ | gate_X | gate_Y | gate_Z | gate_H.

(** A positional argument of a gate constructor. *)
Inductive Arg : Type :=
| AWire (w : nat)
| APar (p : PVal).

(** The matrix handed to [gate.DenseMatrix]: a module constant, the
    value of [crz] at a parameter, or a parameter of the operation. *)
Inductive GateMatrix : Type :=
| MConst (m : Matrices.matrix)
| MCrz (theta : PVal)
| MParam (p : PVal).

(** A gate object of the engine. *)
Inductive Gate : Type :=
| Native (ctor : NativeCtor) (args : list Arg)
| DenseMatrix (targets : list nat) (m : GateMatrix).

(** The values of [_operation_map]. *)
Inductive Mapped : Type :=
| MappedNone
| MappedMatrix (m : Matrices.matrix)
| MappedCrz
| MappedNative (ctor : NativeCtor).

(** [_operation_map], lines 131-155, in the order of the literal. *)
Definition _operation_map : list (string * Mapped) :=
  [ ("QubitStateVector", MappedNone);
    ("BasisState", MappedNone);
    ("QubitUnitary", MappedNone);
    ("Toffoli", MappedMatrix Matrices.toffoli);
    ("CSWAP", MappedMatrix Matrices.CSWAP);
    ("CRZ", MappedCrz);
    ("SWAP", MappedNative gate_SWAP);
    ("CNOT", MappedNative gate_CNOT);
    ("CZ", MappedNative gate_CZ);
    ("S", MappedNative gate_S);
    ("S.inv", MappedNative gate_Sdag);
    ("T", MappedNative gate_T);
    ("T.inv", MappedNative gate_Tdag);
    ("RX", MappedNative gate_RX);
    ("RY", MappedNative gate_RY);
    ("RZ", MappedNative gate_RZ);
    ("Rot", MappedNone);
    ("PauliX", MappedNative gate_X);
    ("PauliY", MappedNative gate_Y);
    ("PauliZ", MappedNative gate_Z);
    ("Hadamard", MappedNative gate_H) ]%string.

(** [d[key]] on a dictionary given as its list of items. *)
Fixpoint dict_get {V : Type} (d : list (string * V)) (key : string) : result V :=
  match d with
  | [] => Err (KeyError key)
  | (k, v) :: d' => if String.eqb k key then Ok v else dict_get d' key
  end.

(** [l[i]] *)
Definition subscript {A : Type} (l : list A) (i : nat) : result A :=
  match nth_error l i with
  | Some x => Ok x
  | None => Err IndexError
  end.

(** The simulation engine: what the device asks of a
    [qulacs.QuantumState].  A call that raises is [None] and leaves the
    state as it was. *)
Class Engine : Type := {
  State : Type;
  (** [state.load(vector)] *)
  load : State -> PVal -> option State;
  (** [state.set_computational_basis(index)] *)
  set_computational_basis : State -> int -> option State;
  (** [gate.update_quantum_state(state)] *)
  update_quantum_state : Gate -> State -> option State;
  (** [state.get_vector()] *)
  get_vector : State -> list Complex
}.

(** What the device inherits from PennyLane's [QubitDevice]. *)
Class QubitDevice : Type := {
  (** [self.marginal_prob(prob, wires)] on a device of [num_wires] wires *)
  marginal_prob : nat -> list Real -> list nat -> list Real
}.

End DataModel.

(** A bit of a [BasisState] parameter. *)
Definition is_bit (b : int) : Prop := (b = 0 \/ b = 1)%Z.

(* ================================================================== *)
(** * The device: state, circuit log and the methods of [QulacsDevice] *)
(* ================================================================== *)

Declare Scope device_scope.
Delimit Scope device_scope with device.

Section Device.
Context {S : Scalars} {E : Engine} {Q : QubitDevice}.

(** The fields of a [QulacsDevice] instance.  [_state] is optional
    because [analytic_probability] tests it against [None]. *)
Record Device : Type := mk_device {
  num_wires : nat;
  _state : option State;
  _circuit : list Gate
}.

(** Statements of a method: they read and mutate the device and either
    complete with a value or raise.  The device after a raise is the
    device as the statements before the raise left it. *)
Definition M (A : Type) : Type := Device -> result A * Device.

Definition ret {A : Type} (a : A) : M A := fun d => (Ok a, d).

Definition raise {A : Type} (e : exn) : M A := fun d => (Err e, d).

Definition lift {A : Type} (r : result A) : M A := fun d => (r, d).

Definition bind {A B : Type} (m : M A) (k : A -> M B) : M B :=
  fun d => match m d with
           | (Ok a, d') => k a d'
           | (Err e, d') => (Err e, d')
           end.

Notation "x <- m ;; k" := (bind m (fun x => k))
  (at level 61, m at next level, right associativity) : device_scope.
Notation "m ;; k" := (bind m (fun _ => k))
  (at level 61, right associativity) : device_scope.
Local Open Scope device_scope.

(** [self._circuit.add_gate(g)] *)
Definition add_gate (g : Gate) : M unit :=
  fun d => (Ok tt, mk_device (num_wires d) (_state d) (_circuit d ++ [g])).

(** A mutating call on [self._state]; [on_none] is what Python raises
    when [self._state] is [None]. *)
Definition on_state (on_none : exn) (f : State -> option State) : M unit :=
  fun d => match _state d with
           | None => (Err on_none, d)
           | Some s =>
               match f s with
               | Some s' => (Ok tt, mk_device (num_wires d) (Some s') (_circuit d))
               | None => (Err EngineError, d)
               end
           end.

(** [g.update_quantum_state(self._state)] *)
Definition update (g : Gate) : M unit :=
  on_state TypeError (update_quantum_state g).

(** [op.name in {"BasisState", "QubitStateVector"}] *)
Definition is_state_loading (n : string) : bool :=
  (String.eqb n "BasisState" || String.eqb n "QubitStateVector")%string.

(** A numeric array read as amplitudes.  An integer array is one; a
    scalar has no [len] and a matrix is outside the data model of a
    state vector: Python raises on both before touching the device. *)
Definition as_amplitudes (p : PVal) : result (list Complex) :=
  match p with
  | PVector v => Ok v
  | PBits b => Ok (map of_int b)
  | PReal _ | PMatrix _ => Err TypeError
  end.

(** An array read as bits; only integer arrays can be shifted into an
    index. *)
Definition as_bits (p : PVal) : result (list int) :=
  match p with
  | PBits b => Ok b
  | _ => Err TypeError
  end.

(** [len(p)] *)
Definition py_len (p : PVal) : result nat :=
  match p with
  | PReal _ => Err TypeError
  | PVector v => Ok (length v)
  | PBits b => Ok (length b)
  | PMatrix m => Ok (length m)
  end.

(** The loop of lines 222-224: [basis_state = (basis_state << 1) | bit]. *)
Definition pack_bits (bits : list int) : int :=
  fold_left (fun basis_state bit => Z.lor (Z.shiftl basis_state 1) bit) bits 0%Z.

(** [gate.C(wires[0], par[k])], as the [Rot] branch writes it six times. *)
Definition rot_gate (ctor : NativeCtor) (wires : list nat) (par : list PVal)
    (k : nat) : M Gate :=
  w0 <- lift (subscript wires 0) ;;
  p <- lift (subscript par k) ;;
  ret (Native ctor [AWire w0; APar p]).

(** The body of the loop of [apply], lines 188-270, for the operation
    [op] at position [i]. *)
Definition apply_op (i : nat) (op : Operation) : M unit :=
  let wires := slice_reversed (wires op) in
  let par := parameters op in
  if (0 <? i) && is_state_loading (name op) then
    raise DeviceError_after_other_operations
  else if String.eqb (name op) "QubitStateVector" then
    input_state <- lift (subscript par 0) ;;
    input_state <- lift (bindR (as_amplitudes input_state) (@_reverse_state _)) ;;
    if negb (length input_state =? 2 ^ length wires) then
      raise ValueError_state_vector_length
    else if negb (norm_isclose_one input_state) then
      raise ValueError_not_normalized
    else
      par0 <- lift (subscript par 0) ;;
      on_state AttributeError (fun s => load s par0)
  else if String.eqb (name op) "BasisState" then
    par0 <- lift (subscript par 0) ;;
    bits <- lift (as_bits par0) ;;
    let bits := slice_reversed bits in
    let n_basis_state := length bits in
    if negb (forallb (fun b => Z.eqb b 0 || Z.eqb b 1) bits) then
      raise ValueError_basis_bits
    else if negb (n_basis_state =? length wires) then
      raise ValueError_basis_length
    else
      on_state AttributeError (fun s => set_computational_basis s (pack_bits bits))
  else if String.eqb (name op) "QubitUnitary" then
    par0 <- lift (subscript par 0) ;;
    n <- lift (py_len par0) ;;
    if negb (n =? 2 ^ length wires) then
      raise ValueError_unitary_shape
    else
      let unitary_gate := DenseMatrix wires (MParam par0) in
      add_gate unitary_gate ;;
      update unitary_gate
  else if String.eqb (name op) "Rot" then
    let par := map np_negative (parameters op) in
    g <- rot_gate gate_RZ wires par 0 ;; add_gate g ;;
    g <- rot_gate gate_RZ wires par 0 ;; update g ;;
    g <- rot_gate gate_RY wires par 1 ;; add_gate g ;;
    g <- rot_gate gate_RY wires par 1 ;; update g ;;
    g <- rot_gate gate_RZ wires par 2 ;; add_gate g ;;
    g <- rot_gate gate_RZ wires par 2 ;; update g
  else if (String.eqb (name op) "CRZ" || String.eqb (name op) "Toffoli"
           || String.eqb (name op) "CSWAP")%string then
    mapped_operation <- lift (dict_get _operation_map (name op)) ;;
    gate_matrix <- match mapped_operation with
                   | MappedCrz =>
                       (* [crz] is a lambda of one argument, called on the unpacked [par] *)
                       match par with
                       | [theta] => ret (MCrz theta)
                       | _ => raise TypeError
                       end
                   | MappedMatrix m => ret (MConst m)
                   | MappedNative _ | MappedNone =>
                       (* not the value of any of the three names *)
                       raise TypeError
                   end ;;
    let dense_gate := DenseMatrix wires gate_matrix in
    add_gate dense_gate ;;
    update (DenseMatrix wires gate_matrix)
  else
    let par := map np_negative (parameters op) in
    mapped_operation <- lift (dict_get _operation_map (name op)) ;;
    match mapped_operation with
    | MappedNative ctor =>
        add_gate (Native ctor (map AWire wires ++ map APar par)) ;;
        update (Native ctor (map AWire wires ++ map APar par))
    | MappedNone | MappedMatrix _ | MappedCrz =>
        (* the names with these values are taken by the branches above *)
        raise TypeError
    end.

(** [for i, op in enumerate(operations)], from position [i] on. *)
Fixpoint apply_from (i : nat) (operations : list Operation) : M unit :=
  match operations with
  | [] => ret tt
  | op :: rest => apply_op i op ;; apply_from (Datatypes.S i) rest
  end.

(** [QulacsDevice.apply], lines 185-270. *)
Definition apply (operations : list Operation) : M unit :=
  apply_from 0 operations.

(** [QulacsDevice.state], lines 284-287. *)
Definition state (d : Device) : result (list Complex) :=
  match _state d with
  | None => Err AttributeError
  | Some s => _reverse_state (get_vector s)
  end.

(** [range(n)] *)
Definition range (n : nat) : list nat := seq 0 n.

(** [wires or range(self.num_wires)]: [None] and the empty sequence
    are both false. *)
Definition wires_or_range (wires : option (list nat)) (n : nat) : list nat :=
  match wires with
  | None | Some [] => range n
  | Some (w :: ws) => w :: ws
  end.

(** [QulacsDevice.analytic_probability], lines 272-282.  The result is
    [None] or the vector of probabilities. *)
Definition analytic_probability (wires : option (list nat)) (d : Device)
    : result (option (list Real)) :=
  match _state d with
  | None => Ok None
  | Some _ =>
      let wires := wires_or_range wires (num_wires d) in
      let wires := slice_step_one wires in
      bindR (state d) (fun st =>
        let all_probs := map abs_squared st in
        let prob := marginal_prob (num_wires d) all_probs wires in
        Ok (Some prob))
  end.

(** A primitive application as the specification words it: the gate is
    appended to the circuit log and applied to the state vector. *)
Definition apply_gate (g : Gate) : M unit :=
  add_gate g ;; update g.

(** Separate primitive applications, in order, stopping at a failure. *)
Fixpoint apply_gates (gs : list Gate) : M unit :=
  match gs with
  | [] => ret tt
  | g :: gs' => apply_gate g ;; apply_gates gs'
  end.

(** A statement keeps the device when it leaves the number of wires
    alone, only ever appends to the circuit log, and does not raise
    the error of line 193. *)
Definition keeps {A : Type} (m : M A) : Prop :=
  forall d r d', m d = (r, d') ->
    (exists gs, _circuit d' = _circuit d ++ gs) /\
    num_wires d' = num_wires d /\
    r <> Err DeviceError_after_other_operations.

End Device.

Notation "x <- m ;; k" := (bind m (fun x => k))
  (at level 61, m at next level, right associativity) : device_scope.
Notation "m ;; k" := (bind m (fun _ => k))
  (at level 61, right associativity) : device_scope.

(* ================================================================== *)
(** * Construction and reset *)
(* ================================================================== *)

Section Lifecycle.
Context {S : Scalars} {E : Engine}.

(** What the device asks of qulacs to create and to clear a state:
    [QuantumState(n)], [QuantumStateGpu(n)] and [state.set_zero_state()]. *)
Class EngineStates : Type := {
  QuantumState : nat -> State;
  QuantumStateGpu : nat -> State;
  set_zero_state : State -> State
}.

Context {L : EngineStates}.
Local Open Scope device_scope.

(** The [DeviceError] of lines 174-177. *)
Inductive init_exn : Type :=
| DeviceError_gpu_not_supported.

(** [QulacsDevice.__init__], lines 169-183.  [gpu_supported] is the
    class attribute set from [GPU_SUPPORTED] at import; [shots] and
    [analytic] go to the base class and are not used by this module. *)
Definition __init__ (gpu_supported : bool) (wires : nat) (gpu : bool)
    : init_exn + Device :=
  if gpu then
    if negb gpu_supported then inl DeviceError_gpu_not_supported
    else inr (mk_device wires (Some (QuantumStateGpu wires)) [])
  else inr (mk_device wires (Some (QuantumState wires)) []).

(** [self._circuit = QuantumCircuit(self.num_wires)] *)
Definition new_circuit : M unit :=
  fun d => (Ok tt, mk_device (num_wires d) (_state d) []).

(** [QulacsDevice.reset], lines 289-291. *)
Definition reset : M unit :=
  on_state AttributeError (fun s => Some (set_zero_state s)) ;;
  new_circuit.

(** The devices a program can hold: built by [__init__], then used by
    any calls of [apply] and [reset], whether they return or raise. *)
Inductive reachable (gpu_supported : bool) (n : nat) : Device -> Prop :=
| reach_init (gpu : bool) (d : Device) :
    __init__ gpu_supported n gpu = inr d -> reachable gpu_supported n d
| reach_apply (ops : list Operation) (d d' : Device) (r : result unit) :
    reachable gpu_supported n d -> apply ops d = (r, d') ->
    reachable gpu_supported n d'
| reach_reset (d d' : Device) (r : result unit) :
    reachable gpu_supported n d -> reset d = (r, d') ->
    reachable gpu_supported n d'.

End Lifecycle.

(* ================================================================== *)
(** * Properties of statements *)
(* ================================================================== *)

Section StatementProperties.
Context {S : Scalars} {E : Engine}.

(** The statement leaves the number of wires and the presence of a
    state container alone and only appends to the circuit log. *)
Definition frames {A : Type} (m : M A) : Prop :=
  forall d r d', m d = (r, d') ->
    num_wires d' = num_wires d /\
    (exists gs, _circuit d' = _circuit d ++ gs) /\
    (_state d' = None <-> _state d = None).

(** The statement does not touch the device. *)
Definition pure {A : Type} (m : M A) : Prop :=
  forall d r d', m d = (r, d') -> d' = d.

(** The statement raises no error that has a kind of its own. *)
Definition soft {A : Type} (m : M A) : Prop :=
  forall d e d', m d = (Err e, d') -> kind_of e = OtherError.

(** When the statement raises an error that has a kind of its own, the
    device is as it was before the statement. *)
Definition quiet {A : Type} (m : M A) : Prop :=
  forall d e d', m d = (Err e, d') -> kind_of e <> OtherError -> d' = d.

(** When the statement completes, the circuit log has grown by [n]
    gates. *)
Definition logs {A : Type} (n : nat) (m : M A) : Prop :=
  forall d a d', m d = (Ok a, d') ->
    exists gs, _circuit d' = _circuit d ++ gs /\ length gs = n.

(** The number of gates an operation adds to the circuit log: none for
    a state-loading operation, three for [Rot], one for every other. *)
Definition gate_count (op : Operation) : nat :=
  if is_state_loading (name op) then 0
  else if String.eqb (name op) "Rot" then 3
  else 1.

End StatementProperties.

(* ================================================================== *)
(** * An exact instance of the interfaces *)
(* ================================================================== *)

(** Numbers are rationals and Gaussian rationals, and the tolerance
    tests of numpy are decided over the reals, without rounding.  The
    engine of this instance keeps the vector last loaded together with
    the gates applied to it since; it does not multiply matrices. *)
Module Exact.
Local Open Scope Q_scope.

Definition gauss : Type := (Q * Q)%type.

Definition gauss_of_int (z : int) : gauss := (inject_Z z, 0).
Definition gauss_opp (z : gauss) : gauss := (- fst z, - snd z).
Definition gauss_conj (z : gauss) : gauss := (fst z, - snd z).
Definition gauss_sub (a b : gauss) : gauss := (fst a - fst b, snd a - snd b).
Definition gauss_abs2 (z : gauss) : Q := fst z * fst z + snd z * snd z.

(** numpy's defaults [rtol=1e-05], [atol=1e-08] and the module's
    [tolerance = 1e-10], line 113. *)
Definition rtol : Q := 1 # 100000.
Definition atol : Q := 1 # 100000000.
Definition tolerance : Q := 1 # 10000000000.

(** [|a - b| <= atol + rtol * |b|], with the square roots removed:
    for [L = |a-b|^2 - atol^2 - rtol^2 |b|^2] the test holds when
    [L <= 0] or [L^2 <= 4 atol^2 rtol^2 |b|^2]. *)
Definition gauss_isclose (a b : gauss) : bool :=
  let L := gauss_abs2 (gauss_sub a b) - atol * atol - rtol * rtol * gauss_abs2 b in
  Qle_bool L 0 || Qle_bool (L * L) (4 * atol * atol * rtol * rtol * gauss_abs2 b).

(** [| ||v|| - 1 | <= tolerance + rtol * 1] on the squared norm. *)
Definition gauss_norm_isclose_one (v : list gauss) : bool :=
  let s := fold_right Qplus 0 (map gauss_abs2 v) in
  let t := tolerance + rtol in
  Qle_bool ((1 - t) * (1 - t)) s && Qle_bool s ((1 + t) * (1 + t)).

#[export] Instance scalars : Scalars := {|
  Real := Q;
  Complex := gauss;
  negative := Qopp;
  cnegative := gauss_opp;
  conj := gauss_conj;
  of_int := gauss_of_int;
  isclose := gauss_isclose;
  norm_isclose_one := gauss_norm_isclose_one;
  abs_squared := gauss_abs2
|}.

(** The engine state: the number of qubits, the vector last loaded and
    the gates applied since. *)
Record trace_state : Type := mk_trace {
  qubits : nat;
  loaded : list gauss;
  applied : list Gate
}.

Definition basis_vector (n : nat) (k : nat) : list gauss :=
  map (fun j => if Nat.eqb j k then (1, 0) else (0, 0)) (seq 0 (2 ^ n)).

Definition trace_load (s : trace_state) (p : PVal) : option trace_state :=
  match p with
  | PVector v =>
      if Nat.eqb (length v) (2 ^ qubits s) then Some (mk_trace (qubits s) v [])
      else None
  | PBits b =>
      if Nat.eqb (length b) (2 ^ qubits s)
      then Some (mk_trace (qubits s) (map gauss_of_int b) [])
      else None
  | PReal _ | PMatrix _ => None
  end.

Definition trace_set_basis (s : trace_state) (k : int) : option trace_state :=
  if (Z.leb 0 k && Z.ltb k (2 ^ Z.of_nat (qubits s)))%Z
  then Some (mk_trace (qubits s) (basis_vector (qubits s) (Z.to_nat k)) [])
  else None.

Definition trace_update (g : Gate) (s : trace_state) : option trace_state :=
  Some (mk_trace (qubits s) (loaded s) (applied s ++ [g])).

#[export] Instance engine : Engine := {|
  State := trace_state;
  load := trace_load;
  set_computational_basis := trace_set_basis;
  update_quantum_state := trace_update;
  get_vector := loaded
|}.

(** Marginal probabilities: wire [w] of [n] is bit [n - 1 - w] of the
    basis index, and the wires are kept in the order given. *)
Definition pattern_of (n : nat) (ws : list nat) (j : nat) : nat :=
  fold_left (fun acc w => (2 * acc + (if Nat.testbit j (n - 1 - w) then 1 else 0))%nat)
            ws 0%nat.

Definition marginal (n : nat) (p : list Q) (ws : list nat) : list Q :=
  map (fun k =>
         fold_right Qplus 0
           (map (fun j => if Nat.eqb (pattern_of n ws j) k then nth j p 0 else 0)
                (seq 0 (2 ^ n))))
      (seq 0 (2 ^ length ws)).

#[export] Instance qubit_device : QubitDevice := {| marginal_prob := marginal |}.

(** [QulacsDevice(wires=n)] after [__init__]: the zero state and an
    empty circuit. *)
Definition new_device (n : nat) : Device :=
  mk_device n (Some (mk_trace n (basis_vector n 0) [])) [].

(** A device whose state container is [None]. *)
Definition stateless_device (n : nat) : Device := mk_device n None [].

(** ** Inputs of the runs *)

Local Open Scope string_scope.

(** The vector [|01>] in the caller's ordering, on two wires. *)
Definition ket01 : list gauss := [(0, 0); (1, 0); (0, 0); (0, 0)].

Definition load_ket01 : Operation :=
  mk_op "QubitStateVector" [0; 1]%nat [PVector ket01].

(** A composite rotation on wire 0. *)
Definition rot_example : Operation :=
  mk_op "Rot" [0]%nat [PReal (1 # 2); PReal (1 # 3); PReal (1 # 5)].

(** The sequence of the specification's example and a sequence whose
    first operation is refused. *)
Definition hadamard_then_basis_state : list Operation :=
  [ mk_op "Hadamard" [0]%nat [];
    mk_op "BasisState" [0]%nat [PBits [0%Z]] ].

Definition bad_unitary_then_basis_state : list Operation :=
  [ mk_op "QubitUnitary" [0]%nat [PMatrix [[(1, 0)]]];
    mk_op "BasisState" [0]%nat [PBits [0%Z]] ].

(** Three amplitudes: not a power of two. *)
Definition three_amplitudes : list gauss := [(1, 0); (0, 0); (0, 0)].

(** A sequence whose second operation is refused. *)
Definition unitary_in_the_middle : list Operation :=
  [ mk_op "Hadamard" [0]%nat [];
    mk_op "QubitUnitary" [0]%nat [PMatrix [[(1, 0)]]];
    mk_op "PauliX" [0]%nat [] ].

(** Three operations that log five gates. *)
Definition hadamard_rot_x : list Operation :=
  [ mk_op "Hadamard" [0]%nat [];
    rot_example;
    mk_op "PauliX" [0]%nat [] ].

(** A [BasisState] on two wires, and a matrix of two rows of three
    entries. *)
Definition basis_one_zero : Operation :=
  mk_op "BasisState" [0; 1]%nat [PBits [1%Z; 0%Z]].


(** Two amplitudes of squared norm 2. *)
Definition not_unit : list gauss := [(1, 0); (1, 0)].

(** The states of the exact engine: a fresh state is the zero state,
    and clearing a state forgets what was loaded and applied. *)
#[export] Instance engine_states : EngineStates := {|
  QuantumState := fun n => mk_trace n (basis_vector n 0) [];
  QuantumStateGpu := fun n => mk_trace n (basis_vector n 0) [];
  set_zero_state := fun s => mk_trace (qubits s) (basis_vector (qubits s) 0) []
|}.

End Exact.

(* ================================================================== *)
(** * Theorems *)
(* ================================================================== *)

(** ** Index arithmetic of arrays *)

Module NpFacts.
Import Np.

Lemma size_of_app (s1 s2 : list nat) :
  size_of (s1 ++ s2) = size_of s1 * size_of s2.
Proof.
  induction s1 as [|d s1 IH]; simpl.
  - lia.
  - rewrite IH. lia.
Qed.

Lemma size_of_rev (s : list nat) : size_of (rev s) = size_of s.
Proof.
  induction s as [|d s IH]; simpl; [reflexivity|].
  rewrite size_of_app, IH. simpl. lia.
Qed.

Lemma size_of_repeat_2 (N : nat) : size_of (repeat 2 N) = 2 ^ N.
Proof.
  induction N as [|N IH]; simpl; [reflexivity|].
  rewrite IH. lia.
Qed.

Lemma unravel_valid (s : list nat) :
  forall j, j < size_of s -> valid_index s (unravel_index s j).
Proof.
  induction s as [|d ds IH]; intros j Hj; simpl.
  - constructor.
  - simpl in Hj.
    assert (HP : size_of ds <> 0) by (intro H0; rewrite H0 in Hj; lia).
    constructor.
    + apply Nat.Div0.div_lt_upper_bound. lia.
    + apply IH. apply Nat.mod_upper_bound. exact HP.
Qed.

Lemma ravel_unravel (s : list nat) :
  forall j, j < size_of s -> ravel_multi_index s (unravel_index s j) = j.
Proof.
  induction s as [|d ds IH]; intros j Hj; simpl in *.
  - lia.
  - assert (HP : size_of ds <> 0) by (intro H0; rewrite H0 in Hj; lia).
    rewrite IH by (apply Nat.mod_upper_bound; exact HP).
    pose proof (Nat.div_mod_eq j (size_of ds)). lia.
Qed.

Lemma ravel_bound (s idx : list nat) :
  valid_index s idx -> ravel_multi_index s idx < size_of s.
Proof.
  intros H. induction H as [|i d is' ds Hid _ IH]; simpl.
  - lia.
  - nia.
Qed.

Lemma unravel_ravel (s idx : list nat) :
  valid_index s idx -> unravel_index s (ravel_multi_index s idx) = idx.
Proof.
  intros H. induction H as [|i d is' ds Hid Hrest IH]; simpl.
  - reflexivity.
  - pose proof (ravel_bound Hrest) as Hb.
    set (P := size_of ds) in *. set (r := ravel_multi_index ds is') in *.
    assert (Hq : (i * P + r) / P = i).
    { symmetry. apply (Nat.div_unique _ _ _ r); lia. }
    assert (Hm : (i * P + r) mod P = r).
    { symmetry. apply (Nat.mod_unique _ _ i); lia. }
    rewrite Hq, Hm, IH. reflexivity.
Qed.

Lemma valid_index_rev (s idx : list nat) :
  valid_index s idx -> valid_index (rev s) (rev idx).
Proof.
  intros H. induction H as [|i d is' ds Hid _ IH]; simpl.
  - constructor.
  - apply Forall2_app; [exact IH|]. constructor; [exact Hid | constructor].
Qed.

(** The source position of a transposed element is a position of the
    array, and taking it twice comes back. *)
Lemma transpose_source_valid (s : list nat) (j : nat) :
  j < size_of s -> valid_index s (rev (unravel_index (rev s) j)).
Proof.
  intros Hj.
  assert (H : valid_index (rev s) (unravel_index (rev s) j))
    by (apply unravel_valid; rewrite size_of_rev; exact Hj).
  apply valid_index_rev in H. rewrite rev_involutive in H. exact H.
Qed.

Lemma transpose_source_bound (s : list nat) (j : nat) :
  j < size_of s -> transpose_source s j < size_of s.
Proof.
  intros Hj. unfold transpose_source.
  apply ravel_bound, transpose_source_valid, Hj.
Qed.

Lemma transpose_source_involutive (s : list nat) (j : nat) :
  j < size_of s ->
  transpose_source (rev s) (transpose_source s j) = j.
Proof.
  intros Hj. unfold transpose_source. rewrite rev_involutive.
  rewrite unravel_ravel by (apply transpose_source_valid, Hj).
  rewrite rev_involutive. apply ravel_unravel.
  rewrite size_of_rev. exact Hj.
Qed.

Section Elements.
Variable A : Type.

Lemma map_nth_seq (l : list A) (d : A) :
  map (fun j => nth j l d) (seq 0 (length l)) = l.
Proof.
  apply (nth_ext _ _ d d).
  - rewrite length_map, length_seq. reflexivity.
  - intros n Hn. rewrite length_map, length_seq in Hn.
    rewrite (nth_indep _ d (nth 0 l d)) by (rewrite length_map, length_seq; exact Hn).
    rewrite (map_nth (fun j => nth j l d)).
    rewrite seq_nth by exact Hn. reflexivity.
Qed.

Lemma T_length (a : ndarray A) : length (data (T a)) = length (data a).
Proof.
  unfold T. simpl. destruct (data a) as [|d0 l]; [reflexivity|].
  rewrite length_map, length_seq. reflexivity.
Qed.

Lemma T_well_shaped (a : ndarray A) : well_shaped a -> well_shaped (T a).
Proof.
  unfold well_shaped. intros H. rewrite T_length. simpl.
  rewrite size_of_rev. exact H.
Qed.

(** Element [j] of the transposed array. *)
Lemma T_nth (a : ndarray A) (d : A) (j : nat) :
  well_shaped a -> j < length (data a) ->
  nth j (data (T a)) d = nth (transpose_source (shape a) j) (data a) d.
Proof.
  intros Hw Hj. unfold T. simpl.
  destruct (data a) as [|d0 l] eqn:Hd; [simpl in Hj; lia|].
  rewrite <- Hd in *.
  rewrite (nth_indep _ d (nth (transpose_source (shape a) 0) (data a) d0))
    by (rewrite length_map, length_seq; exact Hj).
  rewrite (map_nth (fun j => nth (transpose_source (shape a) j) (data a) d0)).
  rewrite seq_nth by exact Hj. simpl.
  apply nth_indep. rewrite <- Hw.
  apply transpose_source_bound. rewrite Hw. exact Hj.
Qed.

(** Transposing twice gives the array back. *)
Lemma T_involutive (a : ndarray A) : well_shaped a -> T (T a) = a.
Proof.
  intros Hw. destruct a as [s l]. 
  assert (Hdata : data (T (T (mk_ndarray s l))) = l).
  { destruct l as [|d l'] eqn:Hl; [reflexivity|]. rewrite <- Hl in *.
    apply (nth_ext _ _ d d).
    - rewrite !T_length. reflexivity.
    - intros n Hn. rewrite !T_length in Hn. simpl in Hn.
      pose proof (T_well_shaped Hw) as Hw'.
      unfold well_shaped in Hw. simpl in Hw.
      rewrite T_nth by (try exact Hw'; rewrite T_length; exact Hn).
      assert (Hb : transpose_source (rev s) n < length l).
      { rewrite <- Hw, <- (size_of_rev s).
        apply transpose_source_bound. rewrite size_of_rev, Hw. exact Hn. }
      rewrite T_nth by (try exact Hb; unfold well_shaped; simpl; exact Hw).
      simpl.
      pose proof (@transpose_source_involutive (rev s) n) as Hi.
      rewrite rev_involutive in Hi. rewrite Hi; [reflexivity|].
      rewrite size_of_rev, Hw. exact Hn. }
  unfold T in *. simpl in *. rewrite rev_involutive. f_equal. exact Hdata.
Qed.

End Elements.
End NpFacts.

(* ================================================================== *)
(** * Reversal of wires and amplitudes *)
(* ================================================================== *)

Example reverse_state_two_wires :
  _reverse_state [10; 11; 12; 13] = Ok [10; 12; 11; 13].
Proof. reflexivity. Qed.

Example reverse_state_three_wires :
  _reverse_state [0; 1; 2; 3; 4; 5; 6; 7] = Ok [0; 4; 2; 6; 1; 5; 3; 7].
Proof. reflexivity. Qed.

Example reverse_state_three_elements :
  _reverse_state [1; 2; 3] = Err ValueError_cannot_reshape.
Proof. reflexivity. Qed.

Example reverse_state_empty :
  _reverse_state (@nil nat) = Err OverflowError_int_of_infinity.
Proof. reflexivity. Qed.

Section ReverseStateFacts.
Variable A : Type.
Import Np NpFacts.

Lemma rev_repeat_2 (N : nat) : rev (repeat 2 N) = repeat 2 N.
Proof.
  induction N as [|N IH]; [reflexivity|].
  simpl. rewrite IH. clear IH.
  induction N as [|N IH]; [reflexivity|].
  simpl. rewrite IH. reflexivity.
Qed.

Lemma pow2_nonzero (N : nat) : 2 ^ N <> 0.
Proof. apply Nat.pow_nonzero. discriminate. Qed.

(** On a vector of length [2^N] the function returns the flattened
    transpose of the [N]-fold [(2,...,2)] tensor. *)
Lemma reverse_state_pow2 (v : list A) (N : nat) :
  length v = 2 ^ N ->
  _reverse_state v = Ok (data (T (mk_ndarray (repeat 2 N) v))).
Proof.
  intros Hlen. unfold _reverse_state, int_log2.
  rewrite Hlen.
  destruct (2 ^ N =? 0) eqn:H0.
  - apply Nat.eqb_eq in H0. destruct (pow2_nonzero N H0).
  - cbn [bindR]. rewrite Nat.log2_pow2 by lia.
    unfold reshape, array. cbn [data].
    rewrite size_of_repeat_2, Hlen, Nat.eqb_refl. reflexivity.
Qed.

Lemma reverse_state_length (v w : list A) :
  _reverse_state v = Ok w -> length w = length v.
Proof.
  unfold _reverse_state, int_log2, reshape, array. cbn [data].
  destruct (length v =? 0); cbn [bindR]; [discriminate|].
  destruct (size_of (repeat 2 (Nat.log2 (length v))) =? length v); cbn [bindR];
    [|discriminate].
  intros H. injection H as <-.
  apply (T_length (mk_ndarray (repeat 2 (Nat.log2 (length v))) v)).
Qed.

(** A result means that the length is a power of two. *)
Lemma reverse_state_Ok_pow2 (v w : list A) :
  _reverse_state v = Ok w -> exists N, length v = 2 ^ N.
Proof.
  unfold _reverse_state, int_log2, reshape, array. cbn [data].
  destruct (length v =? 0); cbn [bindR]; [discriminate|].
  destruct (size_of (repeat 2 (Nat.log2 (length v))) =? length v) eqn:Hs;
    cbn [bindR]; [|discriminate].
  intros _. exists (Nat.log2 (length v)).
  apply Nat.eqb_eq in Hs. rewrite size_of_repeat_2 in Hs. symmetry. exact Hs.
Qed.

(** On any other length the function raises: in [int] on the empty
    vector, in [reshape] otherwise. *)
Lemma reverse_state_not_pow2 (v : list A) :
  (forall N, length v <> 2 ^ N) ->
  _reverse_state v =
    Err (if length v =? 0 then OverflowError_int_of_infinity
         else ValueError_cannot_reshape).
Proof.
  intros Hn. destruct (_reverse_state v) as [w|e] eqn:Hr.
  - destruct (reverse_state_Ok_pow2 _ Hr) as [N HN]. destruct (Hn N HN).
  - revert Hr. unfold _reverse_state, int_log2, reshape, array. cbn [data].
    destruct (length v =? 0); cbn [bindR]; [congruence|].
    destruct (size_of (repeat 2 (Nat.log2 (length v))) =? length v); cbn [bindR];
      congruence.
Qed.

Lemma reverse_state_twice (v : list A) (N : nat) :
  length v = 2 ^ N ->
  exists w, _reverse_state v = Ok w /\ length w = 2 ^ N /\ _reverse_state w = Ok v.
Proof.
  intros Hlen.
  set (a := mk_ndarray (repeat 2 N) v).
  assert (Hw : well_shaped a)
    by (unfold well_shaped; simpl; rewrite size_of_repeat_2; symmetry; exact Hlen).
  exists (data (T a)). split; [apply reverse_state_pow2; exact Hlen|].
  assert (Hlw : length (data (T a)) = 2 ^ N) by (rewrite T_length; exact Hlen).
  split; [exact Hlw|].
  rewrite reverse_state_pow2 with (N := N) by exact Hlw.
  replace (mk_ndarray (repeat 2 N) (data (T a))) with (T a).
  - rewrite (T_involutive Hw). reflexivity.
  - unfold T at 1. simpl. rewrite rev_repeat_2. reflexivity.
Qed.

End ReverseStateFacts.

(** C2.  Both reversals are involutions: reversing a wire list twice
    gives the list back, and on every amplitude vector whose length is a
    power of two, [_reverse_state] (reshape to the [N]-fold [(2,...,2)]
    tensor, transpose all axes, flatten) returns a vector on which it
    returns the original one. *)
Theorem reversals_are_involutions :
  (forall W : list nat, slice_reversed (slice_reversed W) = W) /\
  (forall (A : Type) (v : list A) (N : nat),
      length v = 2 ^ N ->
      exists w, _reverse_state v = Ok w /\ _reverse_state w = Ok v).
Proof.
  split.
  - intros W. unfold slice_reversed. apply rev_involutive.
  - intros A v N Hlen.
    destruct (reverse_state_twice v N Hlen) as (w & H1 & _ & H2).
    exists w. split; assumption.
Qed.

Lemma reversals_are_involutions_witness :
  length [3; 1; 4; 1; 5; 9; 2; 6] = 2 ^ 3 /\
  exists w, _reverse_state [3; 1; 4; 1; 5; 9; 2; 6] = Ok w /\
            _reverse_state w = Ok [3; 1; 4; 1; 5; 9; 2; 6].
Proof.
  split.
  - reflexivity.
  - exact (proj2 reversals_are_involutions nat [3; 1; 4; 1; 5; 9; 2; 6] 3 eq_refl).
Defined.

(* ================================================================== *)
(** * The matrix constants *)
(* ================================================================== *)

Module MatrixFacts.
Import Matrices.

(** The matrix of a controlled-controlled-not in the textbook placement
    (controls on the two high bits, target on the low bit) exchanges
    the basis states 6 and 7. *)
Example ccnot_textbook :
  map (image_of (permutation_matrix 8 (ccnot 2 1 0))) (seq 0 8)
  = [0; 1; 2; 3; 4; 5; 7; 6].
Proof. reflexivity. Qed.

(** C7.  The constant [toffoli] of lines 75-76 evaluated: it is an 8x8
    permutation matrix that exchanges the basis states 0 and 1 and
    fixes the other six.  For every placement of two controls and a
    target on the three index bits it differs from the matrix of the
    controlled-controlled-not, and it fixes every basis state whose two
    control bits are 1: the pair it exchanges has both control bits 0. *)
Theorem toffoli_constant_evaluated :
  is_permutation_matrix 8 toffoli = true /\
  map (image_of toffoli) (seq 0 8) = [1; 0; 2; 3; 4; 5; 6; 7] /\
  forallb (fun a : nat * nat * nat =>
             let '(c1, c2, t) := a in
             negb (matrix_eqb toffoli (permutation_matrix 8 (ccnot c1 c2 t))))
          bit_assignments = true /\
  forallb (fun a : nat * nat * nat =>
             let '(c1, c2, _) := a in
             forallb (fun j => implb (controls_set c1 c2 j)
                                     (image_of toffoli j =? j))
                     (seq 0 8))
          bit_assignments = true.
Proof.
  split; [|split; [|split]].
  - reflexivity.
  - reflexivity.
  - vm_compute. reflexivity.
  - vm_compute. reflexivity.
Qed.

End MatrixFacts.

(* ================================================================== *)
(** * The Hermitian-observable validator *)
(* ================================================================== *)

Section HermitianFacts.
Context {S : Scalars}.

Lemma hermitian_not_square (A : cmatrix) :
  is_2d A = true -> is_square A = false ->
  hermitian A = Err ValueError_not_square.
Proof.
  intros H2 Hsq. destruct A as [|r rs]; [discriminate|].
  unfold hermitian, is_square in *. cbn [shape_of hd] in *.
  rewrite Hsq. reflexivity.
Qed.

Lemma hermitian_not_self_adjoint (A : cmatrix) :
  is_2d A = true -> is_square A = true ->
  allclose A (conj_transpose A) = false ->
  hermitian A = Err ValueError_not_hermitian.
Proof.
  intros H2 Hsq Hc. destruct A as [|r rs]; [discriminate|].
  unfold hermitian, is_square in *. cbn [shape_of hd] in *.
  rewrite Hsq, Hc. reflexivity.
Qed.

Lemma hermitian_accepts (A : cmatrix) :
  is_2d A = true -> is_square A = true ->
  allclose A (conj_transpose A) = true ->
  hermitian A = Ok A.
Proof.
  intros H2 Hsq Hc. destruct A as [|r rs]; [discriminate|].
  unfold hermitian, is_square in *. cbn [shape_of hd] in *.
  rewrite Hsq, Hc. reflexivity.
Qed.

End HermitianFacts.

(** C8.  On every matrix (a two-dimensional array) the validator fails
    with a ValidationError when the matrix is not square or is not
    close to its conjugate transpose in numpy's tolerance test, and
    returns the matrix itself otherwise.  With exact numbers, the
    Pauli-Z matrix is returned unchanged and a complex matrix that is
    not self-adjoint is refused. *)
Theorem hermitian_validates :
  (forall (S : Scalars) (M : cmatrix),
      is_2d M = true ->
      (is_square M = false \/ allclose M (conj_transpose M) = false ->
       exists e, hermitian M = Err e /\ kind_of e = ValidationError) /\
      (is_square M = true -> allclose M (conj_transpose M) = true ->
       hermitian M = Ok M)) /\
  (let pauli_z : @cmatrix Exact.scalars := map (map of_int) Matrices.Z in
   hermitian pauli_z = Ok pauli_z) /\
  (let m : @cmatrix Exact.scalars :=
     [[(1, 0); (0, 1)]; [(2, 0); (1, 0)]]%Q in
   hermitian m = Err ValueError_not_hermitian).
Proof.
  split; [|split].
  - intros S M H2. split.
    + intros [Hsq | Hc].
      * exists ValueError_not_square. split; [|reflexivity].
        apply hermitian_not_square; assumption.
      * destruct (is_square M) eqn:Hsq.
        -- exists ValueError_not_hermitian. split; [|reflexivity].
           apply hermitian_not_self_adjoint; assumption.
        -- exists ValueError_not_square. split; [|reflexivity].
           apply hermitian_not_square; assumption.
    + intros Hsq Hc. apply hermitian_accepts; assumption.
  - vm_compute. reflexivity.
  - vm_compute. reflexivity.
Qed.

Lemma hermitian_validates_witness :
  let pauli_x : @cmatrix Exact.scalars := map (map of_int) Matrices.X in
  is_2d pauli_x = true /\
  is_square pauli_x = true /\
  allclose pauli_x (conj_transpose pauli_x) = true /\
  hermitian pauli_x = Ok pauli_x.
Proof.
  intros pauli_x.
  assert (H2 : is_2d pauli_x = true) by reflexivity.
  assert (Hsq : is_square pauli_x = true) by reflexivity.
  assert (Hc : allclose pauli_x (conj_transpose pauli_x) = true)
    by (vm_compute; reflexivity).
  split; [exact H2|]. split; [exact Hsq|]. split; [exact Hc|].
  exact (proj2 (proj1 hermitian_validates Exact.scalars pauli_x H2) Hsq Hc).
Defined.

(* ================================================================== *)
(** * The loop of [apply] *)
(* ================================================================== *)

Arguments apply_op : simpl never.

Section ApplyFacts.
Context {S : Scalars} {E : Engine} {Q : QubitDevice}.
Local Open Scope device_scope.

Lemma apply_from_cons (k : nat) (op : Operation) (rest : list Operation)
    (d : Device) :
  apply_from k (op :: rest) d =
    match apply_op k op d with
    | (Ok _, d1) => apply_from (Datatypes.S k) rest d1
    | (Err e, d1) => (Err e, d1)
    end.
Proof. reflexivity. Qed.

Lemma apply_from_app (l1 : list Operation) :
  forall (k : nat) (l2 : list Operation) (d : Device),
    apply_from k (l1 ++ l2) d =
      match apply_from k l1 d with
      | (Ok _, d1) => apply_from (k + length l1) l2 d1
      | (Err e, d1) => (Err e, d1)
      end.
Proof.
  induction l1 as [|op l1 IH]; intros k l2 d.
  - cbn [app apply_from length]. unfold ret. rewrite Nat.add_0_r. reflexivity.
  - cbn [app length]. rewrite !apply_from_cons.
    destruct (apply_op k op d) as [[u|e] d1]; [|reflexivity].
    rewrite IH. replace (Datatypes.S k + length l1) with (k + Datatypes.S (length l1)) by lia.
    reflexivity.
Qed.

(** The guard of line 192 in front of the rest of the loop body. *)
Lemma apply_op_guard (i : nat) (op : Operation) :
  apply_op i op =
    if (0 <? i) && is_state_loading (name op)
    then raise DeviceError_after_other_operations
    else apply_op 0 op.
Proof.
  unfold apply_op.
  destruct ((0 <? i) && is_state_loading (name op)); reflexivity.
Qed.

(** Past the first position the position is immaterial. *)
Lemma apply_op_later (i j : nat) (op : Operation) :
  apply_op (Datatypes.S i) op = apply_op (Datatypes.S j) op.
Proof. rewrite (apply_op_guard (Datatypes.S i)), (apply_op_guard (Datatypes.S j)). reflexivity. Qed.

Lemma apply_from_later (ops : list Operation) :
  forall i j, apply_from (Datatypes.S i) ops = apply_from (Datatypes.S j) ops.
Proof.
  induction ops as [|op ops IH]; intros i j; cbn [apply_from]; [reflexivity|].
  rewrite (apply_op_later i j), (IH (Datatypes.S i) (Datatypes.S j)). reflexivity.
Qed.

(** ** What every statement of the loop body keeps *)

Lemma keeps_ret {A : Type} (a : A) : keeps (ret a).
Proof.
  intros d r d' H. injection H as <- <-.
  split; [exists []; rewrite app_nil_r; reflexivity|]. split; [reflexivity|discriminate].
Qed.

Lemma keeps_raise {A : Type} (e : exn) :
  e <> DeviceError_after_other_operations -> keeps (@raise _ _ A e).
Proof.
  intros He d r d' H. injection H as <- <-.
  split; [exists []; rewrite app_nil_r; reflexivity|]. split; [reflexivity|].
  intros Heq. injection Heq as Heq. exact (He Heq).
Qed.

Lemma keeps_lift {A : Type} (r : result A) :
  r <> Err DeviceError_after_other_operations -> keeps (lift r).
Proof.
  intros Hr d r' d' H. injection H as <- <-.
  split; [exists []; rewrite app_nil_r; reflexivity|]. split; [reflexivity|exact Hr].
Qed.

Lemma keeps_add_gate (g : Gate) : keeps (add_gate g).
Proof.
  intros d r d' H. injection H as <- <-. cbn.
  split; [exists [g]; reflexivity|]. split; [reflexivity|discriminate].
Qed.

Lemma keeps_on_state (on_none : exn) (f : State -> option State) :
  on_none <> DeviceError_after_other_operations -> keeps (on_state on_none f).
Proof.
  intros Hn d r d' H. unfold on_state in H.
  destruct (_state d) as [s|].
  - destruct (f s) as [s'|]; injection H as <- <-; cbn;
      (split; [exists []; rewrite app_nil_r; reflexivity|]);
      (split; [reflexivity|discriminate]).
  - injection H as <- <-.
    split; [exists []; rewrite app_nil_r; reflexivity|]. split; [reflexivity|].
    intros Heq. injection Heq as Heq. exact (Hn Heq).
Qed.

Lemma keeps_bind {A B : Type} (m : M A) (k : A -> M B) :
  keeps m -> (forall a, keeps (k a)) -> keeps (bind m k).
Proof.
  intros Hm Hk d r d' H. unfold bind in H.
  destruct (m d) as [[a|e] d1] eqn:Hmd.
  - destruct (Hm _ _ _ Hmd) as ([gs1 Hg1] & Hw1 & _).
    destruct (Hk a _ _ _ H) as ([gs2 Hg2] & Hw2 & Hr).
    split; [|split].
    + exists (gs1 ++ gs2). rewrite Hg2, Hg1, app_assoc. reflexivity.
    + congruence.
    + exact Hr.
  - injection H as <- <-.
    destruct (Hm _ _ _ Hmd) as (Hg & Hw & Hr).
    split; [exact Hg|]. split; [exact Hw|].
    intros Heq. apply Hr. congruence.
Qed.

Lemma subscript_error {A : Type} (l : list A) (i : nat) :
  subscript l i <> Err DeviceError_after_other_operations.
Proof. unfold subscript. destruct (nth_error l i); discriminate. Qed.

Lemma dict_get_error {V : Type} (dict : list (string * V)) (key : string) :
  dict_get dict key <> Err DeviceError_after_other_operations.
Proof.
  induction dict as [|[k v] dict IH]; cbn [dict_get]; [discriminate|].
  destruct (String.eqb k key); [discriminate|exact IH].
Qed.

Lemma reverse_state_error {A : Type} (v : list A) :
  _reverse_state v <> Err DeviceError_after_other_operations.
Proof.
  unfold _reverse_state, Np.int_log2, Np.reshape, Np.array. cbn [Np.data].
  destruct (length v =? 0); cbn [bindR]; [discriminate|].
  destruct (Np.size_of _ =? length v); cbn [bindR]; discriminate.
Qed.

Lemma amplitudes_error (p : PVal) :
  bindR (as_amplitudes p) (@_reverse_state _)
  <> Err DeviceError_after_other_operations.
Proof.
  destruct p; cbn [as_amplitudes bindR];
    try discriminate; apply reverse_state_error.
Qed.

Lemma as_bits_error (p : PVal) :
  as_bits p <> Err DeviceError_after_other_operations.
Proof. destruct p; discriminate. Qed.

Lemma py_len_error (p : PVal) :
  py_len p <> Err DeviceError_after_other_operations.
Proof. destruct p; discriminate. Qed.

Ltac keeps_step :=
  first
    [ apply keeps_ret
    | apply keeps_add_gate
    | apply keeps_raise; discriminate
    | apply keeps_on_state; discriminate
    | apply keeps_lift;
      first [ apply subscript_error | apply dict_get_error
            | apply amplitudes_error | apply as_bits_error | apply py_len_error ]
    | apply keeps_bind; [|intros ?]
    | match goal with
      | |- keeps (if ?c then _ else _) => destruct c
      | |- keeps (match ?x with _ => _ end) => destruct x
      end ].

Lemma keeps_rot_gate (ctor : NativeCtor) (ws : list nat) (par : list PVal)
    (k : nat) : keeps (rot_gate ctor ws par k).
Proof. unfold rot_gate. repeat keeps_step. Qed.

Lemma keeps_update (g : Gate) : keeps (update g).
Proof. unfold update. keeps_step. Qed.

(** The loop body at the first position. *)
Lemma apply_op_first_keeps (op : Operation) : keeps (apply_op 0 op).
Proof.
  unfold apply_op. change (0 <? 0) with false. cbn [andb].
  repeat first [ apply keeps_rot_gate | apply keeps_update | keeps_step ].
Qed.


End ApplyFacts.

Section ApplyTheorems.
Context {S : Scalars} {E : Engine} {Q : QubitDevice}.
Local Open Scope device_scope.

Lemma nth_error_cut {A : Type} (l : list A) :
  forall (i : nat) (x : A),
    nth_error l i = Some x ->
    l = firstn i l ++ x :: skipn (Datatypes.S i) l /\ length (firstn i l) = i.
Proof.
  induction l as [|a l IH]; intros [|i] x H; cbn in H; try discriminate.
  - injection H as ->. split; reflexivity.
  - destruct (IH i x H) as [Heq Hlen]. cbn [firstn skipn app length].
    split; [f_equal; exact Heq | f_equal; exact Hlen].
Qed.

(** A failure of the loop started at position [k] comes from one
    operation: those before it completed, and what follows it is never
    looked at. *)
Lemma apply_from_failure (ops : list Operation) :
  forall (k : nat) (d d' : Device) (e : exn),
    apply_from k ops d = (Err e, d') ->
    exists (i : nat) (op : Operation) (d_i : Device),
      nth_error ops i = Some op /\
      apply_from k (firstn i ops) d = (Ok tt, d_i) /\
      apply_op (k + i) op d_i = (Err e, d') /\
      (forall later, apply_from k (firstn i ops ++ op :: later) d = (Err e, d')).
Proof.
  induction ops as [|op ops IH]; intros k d d' e H.
  - discriminate H.
  - rewrite apply_from_cons in H.
    destruct (apply_op k op d) as [[[]|e1] d1] eqn:Hop.
    + destruct (IH _ _ _ _ H) as (i & op' & d_i & Hnth & Hpre & Hfail & Hlater).
      exists (Datatypes.S i), op', d_i. split; [exact Hnth|].
      split; [|split].
      * cbn [firstn]. rewrite apply_from_cons, Hop. exact Hpre.
      * replace (k + Datatypes.S i) with (Datatypes.S k + i) by lia. exact Hfail.
      * intros later. cbn [firstn app]. rewrite apply_from_cons, Hop.
        apply Hlater.
    + injection H as <- <-.
      exists 0, op, d. split; [reflexivity|].
      split; [reflexivity|]. split.
      * rewrite Nat.add_0_r. exact Hop.
      * intros later. cbn [firstn app]. rewrite apply_from_cons, Hop. reflexivity.
Qed.


(** C4, as the code has it.  When the operations before a position
    [i > 0] have been applied without error, a [BasisState] or
    [QubitStateVector] at position [i] makes [apply] fail with the
    SequencingError, the device being as those operations left it.  In
    any case [apply] fails on such a sequence.  The loop body at
    position 0 never raises the SequencingError. *)
Theorem state_loading_after_first_position :
  (forall (ops : list Operation) (i : nat) (op : Operation) (d d_i : Device),
      0 < i -> nth_error ops i = Some op ->
      is_state_loading (name op) = true ->
      apply (firstn i ops) d = (Ok tt, d_i) ->
      apply ops d = (Err DeviceError_after_other_operations, d_i)) /\
  (forall (ops : list Operation) (i : nat) (op : Operation) (d : Device),
      0 < i -> nth_error ops i = Some op ->
      is_state_loading (name op) = true ->
      exists e d', apply ops d = (Err e, d')) /\
  (forall (op : Operation) (d : Device),
      fst (apply_op 0 op d) <> Err DeviceError_after_other_operations).
Proof.
  assert (Hfirst : forall ops i op d d_i,
             0 < i -> nth_error ops i = Some op ->
             is_state_loading (name op) = true ->
             apply (firstn i ops) d = (Ok tt, d_i) ->
             apply ops d = (Err DeviceError_after_other_operations, d_i)).
  { intros ops i op d d_i Hi Hnth Hload Hpre. unfold apply in *.
    destruct (nth_error_cut _ _ Hnth) as [Hcut Hlen].
    rewrite Hcut, apply_from_app, Hpre, Hlen. cbn [Nat.add].
    rewrite apply_from_cons, apply_op_guard, Hload.
    apply Nat.ltb_lt in Hi. rewrite Hi. reflexivity. }
  split; [exact Hfirst|]. split.
  - intros ops i op d Hi Hnth Hload.
    destruct (apply (firstn i ops) d) as [[[]|e] d1] eqn:Hpre.
    + exists DeviceError_after_other_operations, d1.
      apply (Hfirst ops i op d d1); assumption.
    + exists e, d1. unfold apply in *.
      destruct (nth_error_cut _ _ Hnth) as [Hcut _].
      rewrite Hcut, apply_from_app, Hpre. reflexivity.
  - intros op d. destruct (apply_op 0 op d) as [r d'] eqn:H.
    apply (apply_op_first_keeps op _ H).
Qed.

End ApplyTheorems.

(* ================================================================== *)
(** * The composite rotation *)
(* ================================================================== *)

Section RotFacts.
Context {S : Scalars} {E : Engine} {Q : QubitDevice}.
Local Open Scope device_scope.
Local Open Scope string_scope.

(** An operation that is not state-loading passes the guard at every
    position. *)
Lemma apply_op_any_position (i : nat) (op : Operation) :
  is_state_loading (name op) = false -> apply_op i op = apply_op 0 op.
Proof.
  intros H. rewrite apply_op_guard, H, andb_false_r. reflexivity.
Qed.

(** A one-parameter rotation through the branch of the native gates:
    the angle is negated, and the gate is logged and applied. *)
Lemma apply_op_RZ (i w : nat) (t : Real) (d : Device) :
  apply_op i (mk_op "RZ" [w] [PReal t]) d
  = apply_gate (Native gate_RZ [AWire w; APar (PReal (negative t))]) d.
Proof. rewrite apply_op_any_position by reflexivity. reflexivity. Qed.

Lemma apply_op_RY (i w : nat) (t : Real) (d : Device) :
  apply_op i (mk_op "RY" [w] [PReal t]) d
  = apply_gate (Native gate_RY [AWire w; APar (PReal (negative t))]) d.
Proof. rewrite apply_op_any_position by reflexivity. reflexivity. Qed.

(** The six statements of the [Rot] branch are three primitive
    applications. *)
Lemma apply_op_Rot (i w : nat) (t0 t1 t2 : Real) (d : Device) :
  apply_op i (mk_op "Rot" [w] [PReal t0; PReal t1; PReal t2]) d
  = apply_gates [ Native gate_RZ [AWire w; APar (PReal (negative t0))];
                  Native gate_RY [AWire w; APar (PReal (negative t1))];
                  Native gate_RZ [AWire w; APar (PReal (negative t2))] ] d.
Proof.
  rewrite apply_op_any_position by reflexivity.
  unfold apply_op, apply_gates, apply_gate, rot_gate, bind, add_gate, update,
    on_state, lift, ret.
  cbn.
  destruct (_state d) as [s|]; [|reflexivity].
  destruct (update_quantum_state _ s) as [s0|]; [|reflexivity]. cbn.
  destruct (update_quantum_state _ s0) as [s1|]; [|reflexivity]. cbn.
  destruct (update_quantum_state _ s1) as [s2|]; reflexivity.
Qed.

(** C3.  A [Rot] with angles [t0], [t1], [t2] on the wire [w], at any
    position: the angles are negated and the primitive rotations
    [RZ(-t0)], [RY(-t1)], [RZ(-t2)] are, in this order, each appended
    to the circuit log and applied to the state.  The outcome is that
    of the three gates applied separately, and of the operations [RZ],
    [RY], [RZ] with the angles [t0], [t1], [t2] in its place in the
    sequence; when the engine accepts the three gates, the state is the
    result of the three updates and the log has grown by the three
    gates. *)
Theorem Rot_is_three_rotations (i w : nat) (t0 t1 t2 : Real) (d : Device) :
  let op := mk_op "Rot" [w] [PReal t0; PReal t1; PReal t2] in
  let g0 := Native gate_RZ [AWire w; APar (PReal (negative t0))] in
  let g1 := Native gate_RY [AWire w; APar (PReal (negative t1))] in
  let g2 := Native gate_RZ [AWire w; APar (PReal (negative t2))] in
  apply_op i op d = apply_gates [g0; g1; g2] d /\
  (forall rest,
      apply_from i (op :: rest) d
      = apply_from i (mk_op "RZ" [w] [PReal t0] :: mk_op "RY" [w] [PReal t1]
                      :: mk_op "RZ" [w] [PReal t2] :: rest) d) /\
  (forall s s0 s1 s2,
      _state d = Some s ->
      update_quantum_state g0 s = Some s0 ->
      update_quantum_state g1 s0 = Some s1 ->
      update_quantum_state g2 s1 = Some s2 ->
      apply_op i op d
      = (Ok tt, mk_device (num_wires d) (Some s2) (_circuit d ++ [g0; g1; g2]))).
Proof.
  intros op g0 g1 g2.
  assert (H1 : apply_op i op d = apply_gates [g0; g1; g2] d)
    by apply apply_op_Rot.
  split; [exact H1|]. split.
  - intros rest. rewrite !apply_from_cons, H1.
    cbn [apply_gates]. unfold bind at 1 2.
    rewrite apply_op_RZ. fold g0.
    destruct (apply_gate g0 d) as [[[]|e0] d0]; [|reflexivity].
    rewrite apply_from_cons, apply_op_RY. fold g1.
    destruct (apply_gate g1 d0) as [[[]|e1] d1]; [|reflexivity].
    rewrite apply_from_cons, apply_op_RZ. fold g2. unfold bind, ret.
    destruct (apply_gate g2 d1) as [[[]|e2] d2]; [|reflexivity].
    rewrite (apply_from_later rest i (Datatypes.S (Datatypes.S i))). reflexivity.
  - intros s s0 s1 s2 Hs H0 H2 H3. rewrite H1.
    unfold apply_gates, apply_gate, bind, add_gate, update, on_state, ret.
    cbn. rewrite Hs, H0. cbn. rewrite H2. cbn. rewrite H3. cbn.
    rewrite <- !app_assoc. reflexivity.
Qed.

End RotFacts.

(* ================================================================== *)
(** * Loading a state vector and reading the state *)
(* ================================================================== *)

Arguments _reverse_state : simpl never.

Section StateFacts.
Context {S : Scalars} {E : Engine} {Q : QubitDevice}.
Local Open Scope device_scope.

(** The [QubitStateVector] branch at the first position, statement by
    statement: the reversal, the two checks on the reversed vector, and
    the load of the parameter [par[0]] itself. *)
Lemma apply_op_QubitStateVector (ws : list nat) (v : list Complex)
    (ps : list PVal) (d : Device) :
  apply_op 0 (mk_op "QubitStateVector"%string ws (PVector v :: ps)) d =
    match _reverse_state v with
    | Err e => (Err e, d)
    | Ok input_state =>
        if negb (length input_state =? 2 ^ length ws) then
          (Err ValueError_state_vector_length, d)
        else if negb (norm_isclose_one input_state) then
          (Err ValueError_not_normalized, d)
        else on_state AttributeError (fun s => load s (PVector v)) d
    end.
Proof.
  unfold apply_op, slice_reversed. rewrite length_rev.
  cbn -[Nat.pow Nat.eqb].
  unfold bind, lift. cbn -[Nat.pow Nat.eqb].
  destruct (_reverse_state v) as [input_state|e]; [|reflexivity].
  destruct (negb (length input_state =? 2 ^ length ws)); [reflexivity|].
  destruct (negb (norm_isclose_one input_state)); reflexivity.
Qed.

(** With a valid vector the engine is handed the parameter as the
    caller gave it, not the reversed vector that was validated. *)
Lemma QubitStateVector_loads_parameter (ws : list nat) (v w : list Complex)
    (ps : list PVal) (d : Device) (s s' : State) :
  length v = 2 ^ length ws ->
  _reverse_state v = Ok w ->
  norm_isclose_one w = true ->
  _state d = Some s ->
  load s (PVector v) = Some s' ->
  apply [mk_op "QubitStateVector"%string ws (PVector v :: ps)] d
  = (Ok tt, mk_device (num_wires d) (Some s') (_circuit d)).
Proof.
  intros Hlen Hrev Hnorm Hs Hload.
  unfold apply. rewrite apply_from_cons, apply_op_QubitStateVector, Hrev.
  rewrite (reverse_state_length _ Hrev), Hlen, Nat.eqb_refl, Hnorm.
  cbn [negb]. unfold on_state. rewrite Hs, Hload. reflexivity.
Qed.

(** Reading the state then gives the reversal of what the engine
    holds: of the vector as the caller gave it, when the engine gives
    back what was loaded. *)
Lemma state_after_QubitStateVector (ws : list nat) (v w : list Complex)
    (ps : list PVal) (d : Device) (s s' : State) :
  length v = 2 ^ length ws ->
  _reverse_state v = Ok w ->
  norm_isclose_one w = true ->
  _state d = Some s ->
  load s (PVector v) = Some s' ->
  get_vector s' = v ->
  exists d', apply [mk_op "QubitStateVector"%string ws (PVector v :: ps)] d = (Ok tt, d')
             /\ state d' = Ok w.
Proof.
  intros Hlen Hrev Hnorm Hs Hload Hget.
  eexists. split.
  - apply QubitStateVector_loads_parameter with (w := w) (s := s);
      eassumption.
  - unfold state. cbn [_state]. rewrite Hget. exact Hrev.
Qed.

(** C6, as the code has it.  A [QubitStateVector] whose amplitude
    vector has a length other than [2^(number of wires)] makes [apply]
    fail with the device unchanged.  When the length is a power of two
    the error is the LengthError of line 205.  When it is not, the
    amplitude reversal of line 202 fails before the length is compared:
    the error is the reversal's InvalidStateLength. *)
Theorem state_vector_length_mismatch (ws : list nat) (v : list Complex)
    (ps : list PVal) (rest : list Operation) (d : Device) :
  let op := mk_op "QubitStateVector"%string ws (PVector v :: ps) in
  length v <> 2 ^ length ws ->
  ((exists N, length v = 2 ^ N) ->
   apply (op :: rest) d = (Err ValueError_state_vector_length, d) /\
   kind_of ValueError_state_vector_length = LengthError) /\
  ((forall N, length v <> 2 ^ N) ->
   exists e, apply (op :: rest) d = (Err e, d) /\
             kind_of e = InvalidStateLength /\
             e = if length v =? 0 then OverflowError_int_of_infinity
                 else ValueError_cannot_reshape).
Proof.
  intros op Hne. unfold apply, op.
  rewrite apply_from_cons, apply_op_QubitStateVector. split.
  - intros [N HN].
    destruct (reverse_state_twice v N HN) as (w & Hrev & Hlw & _).
    rewrite Hrev, Hlw, <- HN.
    apply Nat.eqb_neq in Hne. rewrite Hne. split; reflexivity.
  - intros Hnp. rewrite (reverse_state_not_pow2 v Hnp).
    eexists. split; [reflexivity|]. split; [|reflexivity].
    destruct (length v =? 0); reflexivity.
Qed.

(** C5, as the code has it.  Called on a device whose state container
    is [None], [analytic_probability] returns [None]: it does not raise
    and it gives no probabilities. *)
Theorem analytic_probability_without_state (wires : option (list nat))
    (d : Device) :
  _state d = None -> analytic_probability wires d = Ok None.
Proof.
  intros H. unfold analytic_probability. rewrite H. reflexivity.
Qed.

(** C10.  An empty wire list is taken for an absent one: the call
    returns what the call without wires returns, the marginal over all
    the wires of the device in their order.  When [marginal_prob]
    returns one probability per pattern of its wires, the result has
    [2^N] entries on a device of [N] wires. *)
Theorem analytic_probability_empty_wires (d : Device) :
  analytic_probability (Some []) d = analytic_probability None d /\
  (forall s v,
      _state d = Some s -> _reverse_state (get_vector s) = Ok v ->
      analytic_probability (Some []) d
      = Ok (Some (marginal_prob (num_wires d) (map abs_squared v)
                                (range (num_wires d))))) /\
  ((forall n p ws, length (marginal_prob n p ws) = 2 ^ length ws) ->
   forall prob,
     analytic_probability (Some []) d = Ok (Some prob) ->
     length prob = 2 ^ num_wires d).
Proof.
  split; [reflexivity|]. split.
  - intros s v Hs Hv. unfold analytic_probability, state. rewrite Hs, Hv.
    reflexivity.
  - intros Hlen prob. unfold analytic_probability, state.
    destruct (_state d) as [s|]; [|discriminate].
    destruct (_reverse_state (get_vector s)) as [v|e]; cbn [bindR];
      [|discriminate].
    intros H. injection H as <-.
    rewrite Hlen. cbn [wires_or_range]. unfold slice_step_one, range.
    rewrite length_seq. reflexivity.
Qed.

End StateFacts.

(* ================================================================== *)
(** * Runs on the exact instance *)
(* ================================================================== *)

Module Runs.
Import Exact.
Local Open Scope string_scope.
Local Open Scope Q_scope.

(** [BasisState([1, 0], wires=[0, 1])]: the bits are reversed and packed
    into the engine index 1, and the state read back has its 1 at the
    caller's index 2, the bits [1, 0]. *)
Example basis_state_one_zero :
  exists d',
    apply [mk_op "BasisState" [0; 1]%nat [PBits [1%Z; 0%Z]]] (new_device 2)
    = (Ok tt, d') /\
    option_map get_vector (_state d') = Some (basis_vector 2 1) /\
    state d' = Ok (basis_vector 2 2).
Proof.
  eexists. split; [reflexivity|]. split; reflexivity.
Qed.

(** An operation the map does not know. *)
Example unknown_operation :
  fst (apply [mk_op "PhaseShift" [0]%nat [PReal (1 # 2)]] (new_device 1))
  = Err (KeyError "PhaseShift").
Proof. reflexivity. Qed.

(** C1.  [apply([QubitStateVector(ket01, wires=[0, 1])])] on a fresh
    device of two wires, then [state].  The vector is valid and its
    reversal is computed, but the engine is given the vector as
    supplied; reading the state reverses what the engine holds, so the
    state read back is the reversed vector and not the supplied one. *)
Theorem state_vector_loaded_unreversed :
  length ket01 = (2 ^ 2)%nat /\
  norm_isclose_one ket01 = true /\
  _reverse_state ket01 = Ok [(0, 0); (0, 0); (1, 0); (0, 0)] /\
  exists d',
    apply [load_ket01] (new_device 2) = (Ok tt, d') /\
    option_map get_vector (_state d') = Some ket01 /\
    state d' = Ok [(0, 0); (0, 0); (1, 0); (0, 0)] /\
    state d' <> Ok ket01.
Proof.
  split; [reflexivity|]. split; [reflexivity|]. split; [reflexivity|].
  eexists. split; [reflexivity|]. split; [reflexivity|].
  split; [reflexivity|]. discriminate.
Qed.

Lemma Rot_is_three_rotations_witness :
  let g0 := Native gate_RZ [AWire 0; APar (PReal (- (1 # 2)))] in
  let g1 := Native gate_RY [AWire 0; APar (PReal (- (1 # 3)))] in
  let g2 := Native gate_RZ [AWire 0; APar (PReal (- (1 # 5)))] in
  let s := mk_trace 1 (basis_vector 1 0) [] in
  let s0 := mk_trace 1 (basis_vector 1 0) [g0] in
  let s1 := mk_trace 1 (basis_vector 1 0) [g0; g1] in
  let s2 := mk_trace 1 (basis_vector 1 0) [g0; g1; g2] in
  _state (new_device 1) = Some s /\
  update_quantum_state g0 s = Some s0 /\
  update_quantum_state g1 s0 = Some s1 /\
  update_quantum_state g2 s1 = Some s2 /\
  apply_op 0 rot_example (new_device 1)
  = (Ok tt, mk_device 1 (Some s2) [g0; g1; g2]).
Proof.
  intros g0 g1 g2 s s0 s1 s2.
  split; [reflexivity|]. split; [reflexivity|].
  split; [reflexivity|]. split; [reflexivity|].
  exact (proj2 (proj2 (Rot_is_three_rotations 0 0 (1 # 2) (1 # 3) (1 # 5)
                         (new_device 1)))
           s s0 s1 s2 eq_refl eq_refl eq_refl eq_refl).
Defined.

(** C4 as stated fails: a [BasisState] stands at position 1, and
    [apply] fails with the ShapeError of the operation before it. *)
Lemma sequencing_error_preempted :
  (0 < 1)%nat /\
  nth_error bad_unitary_then_basis_state 1
    = Some (mk_op "BasisState" [0]%nat [PBits [0%Z]]) /\
  is_state_loading "BasisState" = true /\
  apply bad_unitary_then_basis_state (new_device 1)
    = (Err ValueError_unitary_shape, new_device 1) /\
  fst (apply bad_unitary_then_basis_state (new_device 1))
    <> Err DeviceError_after_other_operations.
Proof.
  split; [lia|]. split; [reflexivity|]. split; [reflexivity|].
  split; [reflexivity|]. discriminate.
Qed.

Lemma state_loading_after_first_position_witness :
  let d_1 := snd (apply [mk_op "Hadamard" [0]%nat []] (new_device 1)) in
  (0 < 1)%nat /\
  nth_error hadamard_then_basis_state 1
    = Some (mk_op "BasisState" [0]%nat [PBits [0%Z]]) /\
  is_state_loading "BasisState" = true /\
  apply (firstn 1 hadamard_then_basis_state) (new_device 1) = (Ok tt, d_1) /\
  apply hadamard_then_basis_state (new_device 1)
    = (Err DeviceError_after_other_operations, d_1).
Proof.
  intros d_1.
  assert (Hi : (0 < 1)%nat) by lia.
  split; [exact Hi|]. split; [reflexivity|]. split; [reflexivity|].
  split; [reflexivity|].
  exact (proj1 state_loading_after_first_position
           hadamard_then_basis_state 1%nat
           (mk_op "BasisState" [0]%nat [PBits [0%Z]])
           (new_device 1) d_1 Hi eq_refl eq_refl eq_refl).
Defined.

(** C5 as stated fails: without a state the call returns [None], it
    does not raise. *)
Lemma analytic_probability_does_not_raise :
  _state (stateless_device 2) = None /\
  analytic_probability None (stateless_device 2) = Ok None /\
  ~ (exists e, analytic_probability None (stateless_device 2) = Err e).
Proof.
  split; [reflexivity|]. split; [reflexivity|].
  intros [e He]. discriminate He.
Qed.

Lemma analytic_probability_without_state_witness :
  _state (stateless_device 2) = None /\
  analytic_probability (Some [1%nat]) (stateless_device 2) = Ok None.
Proof.
  split; [reflexivity|].
  exact (analytic_probability_without_state (Some [1%nat])
           (stateless_device 2) eq_refl).
Defined.

(** C6 as stated fails: three amplitudes on one wire are refused by
    the reversal, not by the length test. *)
Lemma length_three_is_not_a_LengthError :
  let op := mk_op "QubitStateVector" [0]%nat [PVector three_amplitudes] in
  length three_amplitudes <> (2 ^ length [0%nat])%nat /\
  apply [op] (new_device 1) = (Err ValueError_cannot_reshape, new_device 1) /\
  fst (apply [op] (new_device 1)) <> Err ValueError_state_vector_length /\
  kind_of ValueError_cannot_reshape <> LengthError.
Proof.
  split; [discriminate|]. split; [reflexivity|]. split; discriminate.
Qed.

Lemma state_vector_length_mismatch_witness :
  let op := mk_op "QubitStateVector" [0]%nat [PVector ket01] in
  length ket01 <> (2 ^ length [0%nat])%nat /\
  (exists N, length ket01 = (2 ^ N)%nat) /\
  apply [op] (new_device 1) = (Err ValueError_state_vector_length, new_device 1).
Proof.
  intros op.
  assert (Hne : length ket01 <> (2 ^ length [0%nat])%nat) by discriminate.
  assert (Hpow : exists N, length ket01 = (2 ^ N)%nat) by (exists 2%nat; reflexivity).
  split; [exact Hne|]. split; [exact Hpow|].
  exact (proj1 (proj1 (state_vector_length_mismatch [0%nat] ket01 [] []
                         (new_device 1) Hne) Hpow)).
Defined.


Lemma marginal_length (n : nat) (p : list Q) (ws : list nat) :
  length (marginal n p ws) = (2 ^ length ws)%nat.
Proof. unfold marginal. rewrite length_map, length_seq. reflexivity. Qed.

Lemma analytic_probability_empty_wires_witness :
  (forall n p ws, length (marginal_prob n p ws) = (2 ^ length ws)%nat) /\
  exists prob,
    analytic_probability (Some []) (new_device 2) = Ok (Some prob) /\
    length prob = (2 ^ 2)%nat.
Proof.
  split; [exact marginal_length|].
  eexists. split; [reflexivity|].
  exact (proj2 (proj2 (analytic_probability_empty_wires (new_device 2)))
           marginal_length _ eq_refl).
Defined.

End Runs.

(* ================================================================== *)
(** * More on the amplitude reversal *)
(* ================================================================== *)

Module ReversalFacts.
Import Np NpFacts.

Lemma digits_valid (bs : list bool) :
  valid_index (repeat 2 (length bs)) (digits bs).
Proof.
  induction bs as [|b bs IH]; cbn [digits map length repeat].
  - constructor.
  - constructor; [destruct b; lia | exact IH].
Qed.

Lemma ravel_digits (bs : list bool) :
  ravel_multi_index (repeat 2 (length bs)) (digits bs) = of_bits bs.
Proof.
  induction bs as [|b bs IH]; cbn [digits map length repeat ravel_multi_index of_bits].
  - reflexivity.
  - rewrite size_of_repeat_2. fold (digits bs). rewrite IH. reflexivity.
Qed.

Lemma digits_rev (bs : list bool) : rev (digits bs) = digits (rev bs).
Proof. unfold digits. symmetry. apply map_rev. Qed.

Lemma of_bits_bound (bs : list bool) : of_bits bs < 2 ^ length bs.
Proof.
  rewrite <- ravel_digits, <- size_of_repeat_2.
  apply ravel_bound, digits_valid.
Qed.

(** Where the transpose of the [(2,...,2)] tensor takes the element of
    the index with the bits [bs] from. *)
Lemma transpose_source_bits (bs : list bool) :
  transpose_source (repeat 2 (length bs)) (of_bits bs) = of_bits (rev bs).
Proof.
  unfold transpose_source. rewrite rev_repeat_2.
  rewrite <- (ravel_digits bs) at 1.
  rewrite unravel_ravel by apply digits_valid.
  rewrite digits_rev.
  rewrite <- (length_rev bs) at 1. apply ravel_digits.
Qed.

(** Every index below [2^N] is the index of [N] bits. *)
Lemma of_bits_onto (N : nat) :
  forall j, j < 2 ^ N -> exists bs, length bs = N /\ of_bits bs = j.
Proof.
  induction N as [|N IH]; intros j Hj.
  - exists []. cbn in *. split; [reflexivity | lia].
  - assert (HP : 2 ^ N <> 0) by (apply Nat.pow_nonzero; discriminate).
    destruct (IH (j mod 2 ^ N)) as (bs & Hlen & Hbs).
    { apply Nat.mod_upper_bound. exact HP. }
    assert (Hq : j / 2 ^ N < 2).
    { apply Nat.Div0.div_lt_upper_bound. cbn [Nat.pow] in Hj. lia. }
    pose proof (Nat.div_mod_eq j (2 ^ N)) as Hdm.
    exists (Nat.eqb (j / 2 ^ N) 1 :: bs).
    split; [cbn [length]; rewrite Hlen; reflexivity|].
    cbn [of_bits]. rewrite Hlen, Hbs.
    destruct (j / 2 ^ N =? 1) eqn:Hb.
    + apply Nat.eqb_eq in Hb. lia.
    + apply Nat.eqb_neq in Hb. lia.
Qed.

Section Elements.
Variable A : Type.

(** X1.  [_reverse_state] returns a vector exactly on the lengths that
    are powers of two, and the vector it returns has the length of its
    argument.  On every other length it raises: the [OverflowError] of
    [int(-inf)] on the empty vector, numpy's reshape [ValueError]
    otherwise. *)
Theorem reverse_state_defined_on_powers_of_two (v : list A) :
  ((exists w, _reverse_state v = Ok w) <-> (exists N, length v = 2 ^ N)) /\
  (forall w, _reverse_state v = Ok w -> length w = length v) /\
  ((forall N, length v <> 2 ^ N) ->
   _reverse_state v = Err (if length v =? 0 then OverflowError_int_of_infinity
                           else ValueError_cannot_reshape)).
Proof.
  split; [split|split].
  - intros [w Hw]. exact (reverse_state_Ok_pow2 _ Hw).
  - intros [N HN]. destruct (reverse_state_twice v N HN) as (w & Hw & _).
    exists w. exact Hw.
  - intros w Hw. exact (reverse_state_length _ Hw).
  - apply reverse_state_not_pow2.
Qed.

(** The entry of the reversed vector at the index of some bits. *)
Lemma reverse_state_nth_bits (v w : list A) (N : nat) (d : A) (bs : list bool) :
  length v = 2 ^ N ->
  _reverse_state v = Ok w ->
  length bs = N ->
  nth (of_bits bs) w d = nth (of_bits (rev bs)) v d.
Proof.
  intros Hlen Hrev Hbs.
  pose proof (reverse_state_pow2 v N Hlen) as Hpow. rewrite Hrev in Hpow.
  assert (Heq : w = data (T (mk_ndarray (repeat 2 N) v))) by congruence.
  rewrite Heq. clear Hpow Heq.
  assert (Hw : well_shaped (mk_ndarray (repeat 2 N) v))
    by (unfold well_shaped; cbn [shape data]; rewrite size_of_repeat_2; symmetry; exact Hlen).
  rewrite T_nth.
  - cbn [shape data]. rewrite <- Hbs. rewrite transpose_source_bits. reflexivity.
  - exact Hw.
  - cbn [data]. rewrite Hlen, <- Hbs. apply of_bits_bound.
Qed.

(** X2.  The reversal reverses the bits of the basis index: in the
    vector returned for a vector [v] of length [2^N], the entry at the
    index with the bits [bs] is the entry of [v] at the index with the
    bits reversed; every index below [2^N] is the index of [N] bits. *)
Theorem reverse_state_reverses_bits (v w : list A) (N : nat) (d : A) :
  length v = 2 ^ N ->
  _reverse_state v = Ok w ->
  (forall bs : list bool,
      length bs = N ->
      nth (of_bits bs) w d = nth (of_bits (rev bs)) v d) /\
  (forall j, j < 2 ^ N -> exists bs, length bs = N /\ of_bits bs = j).
Proof.
  intros Hlen Hrev. split; [|apply of_bits_onto].
  intros bs Hbs. apply reverse_state_nth_bits with (N := N); assumption.
Qed.

(** Transposition only moves the elements of an array. *)
Lemma T_permutation (a : ndarray A) :
  well_shaped a -> Permutation (data a) (data (T a)).
Proof.
  intros Hw. unfold T. cbn [data].
  destruct (data a) as [|d0 l] eqn:Hd; [constructor|]. rewrite <- Hd in *.
  set (n := length (data a)). set (s := shape a).
  assert (Hn : size_of s = n) by exact Hw.
  rewrite <- (map_nth_seq (data a) d0) at 1. fold n.
  rewrite <- (map_map (transpose_source s) (fun i => nth i (data a) d0)).
  apply Permutation_map. apply NoDup_Permutation.
  - apply seq_NoDup.
  - apply NoDup_map_NoDup_ForallPairs; [|apply seq_NoDup].
    intros x y Hx Hy Heq. apply in_seq in Hx, Hy.
    rewrite <- (@transpose_source_involutive s x) by lia.
    rewrite <- (@transpose_source_involutive s y) by lia.
    rewrite Heq. reflexivity.
  - intros x. rewrite in_map_iff. split.
    + intros Hx. apply in_seq in Hx.
      exists (transpose_source (rev s) x). split.
      * pose proof (@transpose_source_involutive (rev s) x) as Hi.
        rewrite rev_involutive in Hi. apply Hi. rewrite size_of_rev. lia.
      * apply in_seq.
        pose proof (@transpose_source_bound (rev s) x) as Hb.
        rewrite size_of_rev in Hb. lia.
    + intros (y & <- & Hy). apply in_seq in Hy. apply in_seq.
      pose proof (@transpose_source_bound s y). lia.
Qed.

(** X3.  The vector returned by [_reverse_state] is a rearrangement of
    its argument: no amplitude is lost, duplicated or altered. *)
Theorem reverse_state_permutes (v w : list A) :
  _reverse_state v = Ok w -> Permutation v w.
Proof.
  intros Hrev.
  destruct (reverse_state_Ok_pow2 _ Hrev) as [N HN].
  pose proof (reverse_state_pow2 v N HN) as Hpow. rewrite Hrev in Hpow.
  assert (Heq : w = data (T (mk_ndarray (repeat 2 N) v))) by congruence.
  rewrite Heq.
  apply (@T_permutation (mk_ndarray (repeat 2 N) v)).
  unfold well_shaped. cbn [shape data]. rewrite size_of_repeat_2. symmetry. exact HN.
Qed.

(** X4.  On no wire and on one wire the two conventions agree: a
    vector of one or of two amplitudes is returned as it is. *)
Theorem reverse_state_at_most_one_wire (v : list A) :
  length v = 1 \/ length v = 2 -> _reverse_state v = Ok v.
Proof.
  intros [H | H].
  - destruct v as [|a [|b v']]; try discriminate H. reflexivity.
  - destruct v as [|a [|b [|c v']]]; try discriminate H. reflexivity.
Qed.

End Elements.

Lemma reverse_state_defined_on_powers_of_two_witness :
  (forall N, length [1; 2; 3; 4; 5] <> 2 ^ N) /\
  _reverse_state [1; 2; 3; 4; 5] = Err ValueError_cannot_reshape.
Proof.
  assert (H : forall N, length [1; 2; 3; 4; 5] <> 2 ^ N).
  { intros [|[|[|N]]]; cbn; lia. }
  split; [exact H|].
  exact (proj2 (proj2 (reverse_state_defined_on_powers_of_two [1; 2; 3; 4; 5])) H).
Defined.

Lemma reverse_state_reverses_bits_witness :
  length [10; 11; 12; 13; 14; 15; 16; 17] = 2 ^ 3 /\
  _reverse_state [10; 11; 12; 13; 14; 15; 16; 17]
    = Ok [10; 14; 12; 16; 11; 15; 13; 17] /\
  length [true; true; false] = 3 /\
  nth (of_bits [true; true; false]) [10; 14; 12; 16; 11; 15; 13; 17] 0
    = nth (of_bits (rev [true; true; false])) [10; 11; 12; 13; 14; 15; 16; 17] 0.
Proof.
  split; [reflexivity|]. split; [reflexivity|]. split; [reflexivity|].
  exact (proj1 (@reverse_state_reverses_bits nat
                  [10; 11; 12; 13; 14; 15; 16; 17]
                  [10; 14; 12; 16; 11; 15; 13; 17] 3 0 eq_refl eq_refl)
           [true; true; false] eq_refl).
Defined.

Lemma reverse_state_permutes_witness :
  _reverse_state [10; 11; 12; 13] = Ok [10; 12; 11; 13] /\
  Permutation [10; 11; 12; 13] [10; 12; 11; 13].
Proof.
  split; [reflexivity|].
  exact (@reverse_state_permutes nat [10; 11; 12; 13] [10; 12; 11; 13] eq_refl).
Defined.

Lemma reverse_state_at_most_one_wire_witness :
  (length [7; 9] = 1 \/ length [7; 9] = 2) /\ _reverse_state [7; 9] = Ok [7; 9].
Proof.
  assert (H : length [7; 9] = 1 \/ length [7; 9] = 2) by (right; reflexivity).
  split; [exact H|].
  exact (@reverse_state_at_most_one_wire nat [7; 9] H).
Defined.

End ReversalFacts.

(* ================================================================== *)
(** * What the loop body does to the device *)
(* ================================================================== *)

Section StatementFacts.
Context {S : Scalars} {E : Engine}.
Local Open Scope device_scope.

(** ** Rules for [frames] *)

Lemma frames_same {A : Type} (m : M A) : pure m -> frames m.
Proof.
  intros Hp d r d' H. rewrite (Hp _ _ _ H).
  split; [reflexivity|]. split; [exists []; rewrite app_nil_r; reflexivity|].
  reflexivity.
Qed.

Lemma pure_ret {A : Type} (a : A) : pure (ret a).
Proof. intros d r d' H. injection H as _ <-. reflexivity. Qed.

Lemma pure_raise {A : Type} (e : exn) : pure (@raise _ _ A e).
Proof. intros d r d' H. injection H as _ <-. reflexivity. Qed.

Lemma pure_lift {A : Type} (r : result A) : pure (lift r).
Proof. intros d r' d' H. injection H as _ <-. reflexivity. Qed.

Lemma pure_bind {A B : Type} (m : M A) (k : A -> M B) :
  pure m -> (forall a, pure (k a)) -> pure (bind m k).
Proof.
  intros Hm Hk d r d' H. unfold bind in H.
  destruct (m d) as [[a|e] d1] eqn:Hmd.
  - rewrite (Hk a _ _ _ H). exact (Hm _ _ _ Hmd).
  - injection H as _ <-. exact (Hm _ _ _ Hmd).
Qed.

Lemma pure_rot_gate (ctor : NativeCtor) (ws : list nat) (par : list PVal)
    (k : nat) : pure (rot_gate ctor ws par k).
Proof.
  unfold rot_gate.
  apply pure_bind; [apply pure_lift|intros w0].
  apply pure_bind; [apply pure_lift|intros p]. apply pure_ret.
Qed.

Lemma frames_add_gate (g : Gate) : frames (add_gate g).
Proof.
  intros d r d' H. injection H as _ <-. cbn.
  split; [reflexivity|]. split; [exists [g]; reflexivity|]. reflexivity.
Qed.

Lemma frames_on_state (on_none : exn) (f : State -> option State) :
  frames (on_state on_none f).
Proof.
  intros d r d' H. unfold on_state in H.
  destruct (_state d) as [s|] eqn:Hs.
  - destruct (f s) as [s'|]; injection H as _ <-; cbn.
    + split; [reflexivity|]. split; [exists []; rewrite app_nil_r; reflexivity|].
      split; discriminate.
    + split; [reflexivity|]. split; [exists []; rewrite app_nil_r; reflexivity|].
      rewrite ?Hs. split; congruence.
  - injection H as _ <-.
    split; [reflexivity|]. split; [exists []; rewrite app_nil_r; reflexivity|].
    rewrite ?Hs. split; congruence.
Qed.

Lemma frames_bind {A B : Type} (m : M A) (k : A -> M B) :
  frames m -> (forall a, frames (k a)) -> frames (bind m k).
Proof.
  intros Hm Hk d r d' H. unfold bind in H.
  destruct (m d) as [[a|e] d1] eqn:Hmd.
  - destruct (Hm _ _ _ Hmd) as (Hw1 & [gs1 Hg1] & Hs1).
    destruct (Hk a _ _ _ H) as (Hw2 & [gs2 Hg2] & Hs2).
    split; [congruence|]. split.
    + exists (gs1 ++ gs2). rewrite Hg2, Hg1, app_assoc. reflexivity.
    + rewrite Hs2. exact Hs1.
  - injection H as _ <-. exact (Hm _ _ _ Hmd).
Qed.

Ltac pure_tac :=
  repeat first
    [ apply pure_ret | apply pure_raise | apply pure_lift | apply pure_rot_gate
    | apply pure_bind; [|intros ?]
    | match goal with
      | |- pure (if ?c then _ else _) => destruct c
      | |- pure (match ?x with _ => _ end) => destruct x
      end ].

Ltac frames_tac :=
  repeat first
    [ apply frames_add_gate | apply frames_on_state
    | apply frames_same; solve [pure_tac]
    | apply frames_bind; [|intros ?]
    | match goal with
      | |- frames (if ?c then _ else _) => destruct c
      | |- frames (match ?x with _ => _ end) => destruct x
      end ].

Lemma frames_apply_op (i : nat) (op : Operation) : frames (apply_op i op).
Proof.
  rewrite apply_op_guard.
  destruct ((0 <? i) && is_state_loading (name op)).
  - apply frames_same, pure_raise.
  - unfold apply_op, update. change (0 <? 0) with false. cbn [andb].
    frames_tac.
Qed.

Lemma frames_apply_from (ops : list Operation) :
  forall k, frames (apply_from k ops).
Proof.
  induction ops as [|op ops IH]; intros k; cbn [apply_from].
  - apply frames_same, pure_ret.
  - apply frames_bind; [apply frames_apply_op | intros _; apply IH].
Qed.

(** X5.  Whatever the operations and whether it returns or raises,
    [apply] leaves the number of wires as it is, removes nothing from
    the circuit log (it only appends), and neither creates nor drops
    the state container. *)
Theorem apply_frame (ops : list Operation) (d : Device) :
  let d' := snd (apply ops d) in
  num_wires d' = num_wires d /\
  (exists gs, _circuit d' = _circuit d ++ gs) /\
  (_state d' = None <-> _state d = None).
Proof.
  intros d'. subst d'.
  destruct (apply ops d) as [r d'] eqn:H. cbn [snd].
  exact (frames_apply_from ops 0 _ H).
Qed.

(** ** Rules for [soft] and [quiet] *)

Lemma soft_ret {A : Type} (a : A) : soft (ret a).
Proof. intros d e d' H. discriminate H. Qed.

Lemma soft_raise {A : Type} (e : exn) :
  kind_of e = OtherError -> soft (@raise _ _ A e).
Proof. intros He d e' d' H. injection H as <- _. exact He. Qed.

Lemma soft_add_gate (g : Gate) : soft (add_gate g).
Proof. intros d e d' H. discriminate H. Qed.

Lemma soft_on_state (on_none : exn) (f : State -> option State) :
  kind_of on_none = OtherError -> soft (on_state on_none f).
Proof.
  intros Hn d e d' H. unfold on_state in H.
  destruct (_state d) as [s|].
  - destruct (f s); [discriminate H|]. injection H as <- _. reflexivity.
  - injection H as <- _. exact Hn.
Qed.

Lemma soft_bind {A B : Type} (m : M A) (k : A -> M B) :
  soft m -> (forall a, soft (k a)) -> soft (bind m k).
Proof.
  intros Hm Hk d e d' H. unfold bind in H.
  destruct (m d) as [[a|e1] d1] eqn:Hmd.
  - exact (Hk a _ _ _ H).
  - injection H as <- _. exact (Hm _ _ _ Hmd).
Qed.

Lemma soft_rot_gate (ctor : NativeCtor) (ws : list nat) (par : list PVal)
    (k : nat) : soft (rot_gate ctor ws par k).
Proof.
  intros d e d' H. unfold rot_gate, bind, lift, ret, subscript in H.
  destruct (nth_error ws 0); [|injection H as <- _; reflexivity].
  destruct (nth_error par k); [discriminate H|].
  injection H as <- _. reflexivity.
Qed.

Lemma quiet_of_pure {A : Type} (m : M A) : pure m -> quiet m.
Proof. intros Hp d e d' H _. exact (Hp _ _ _ H). Qed.

Lemma quiet_of_soft {A : Type} (m : M A) : soft m -> quiet m.
Proof. intros Hs d e d' H Hk. destruct (Hk (Hs _ _ _ H)). Qed.

Lemma quiet_bind {A B : Type} (m : M A) (k : A -> M B) :
  pure m -> (forall a, quiet (k a)) -> quiet (bind m k).
Proof.
  intros Hm Hk d e d' H Hkind. unfold bind in H.
  destruct (m d) as [[a|e1] d1] eqn:Hmd.
  - rewrite (Hk a _ _ _ H Hkind). exact (Hm _ _ _ Hmd).
  - injection H as _ <-. exact (Hm _ _ _ Hmd).
Qed.

Ltac soft_tac :=
  repeat first
    [ apply soft_ret | apply soft_add_gate | apply soft_rot_gate
    | apply soft_raise; reflexivity
    | apply soft_on_state; reflexivity
    | apply soft_bind; [|intros ?] ].

Ltac quiet_tac :=
  repeat first
    [ apply quiet_of_pure; solve [pure_tac]
    | apply quiet_of_soft; solve [soft_tac]
    | apply quiet_bind; [solve [pure_tac] | intros ?]
    | match goal with
      | |- quiet (if ?c then _ else _) => destruct c
      | |- quiet (match ?x with _ => _ end) => destruct x
      end ].

Lemma quiet_apply_op (i : nat) (op : Operation) : quiet (apply_op i op).
Proof.
  rewrite apply_op_guard.
  destruct ((0 <? i) && is_state_loading (name op)).
  - apply quiet_of_pure, pure_raise.
  - unfold apply_op, update. change (0 <? 0) with false. cbn [andb].
    quiet_tac.
Qed.

(** X6.  An error that has a kind of its own (sequencing, length,
    normalization, domain, shape, unsupported operation, invalid state
    length) is raised before the failing operation has touched the
    device: the device at the failure is the device as the operations
    before the failing one left it.  Only the errors without a kind (a
    missing parameter or wire, a value of the wrong kind, an engine
    failure) can leave a part of the failing operation behind. *)
Theorem validation_errors_leave_no_trace (ops : list Operation)
    (d d' : Device) (e : exn) :
  apply ops d = (Err e, d') ->
  kind_of e <> OtherError ->
  exists i, i < length ops /\ apply (firstn i ops) d = (Ok tt, d').
Proof.
  intros H Hkind. unfold apply in *.
  destruct (apply_from_failure _ _ _ H)
    as (i & op & d_i & Hnth & Hpre & Hfail & _).
  exists i. split.
  - apply nth_error_Some. rewrite Hnth. discriminate.
  - rewrite (quiet_apply_op _ _ _ Hfail Hkind). exact Hpre.
Qed.

End StatementFacts.

(* ================================================================== *)
(** * The circuit log *)
(* ================================================================== *)

Section LogFacts.
Context {S : Scalars} {E : Engine}.
Local Open Scope device_scope.

Lemma logs_pure {A : Type} (m : M A) : pure m -> logs 0 m.
Proof.
  intros Hp d a d' H. rewrite (Hp _ _ _ H).
  exists []. rewrite app_nil_r. split; reflexivity.
Qed.

Lemma logs_raise {A : Type} (n : nat) (e : exn) : logs n (@raise _ _ A e).
Proof. intros d a d' H. discriminate H. Qed.

Lemma logs_add_gate (g : Gate) : logs 1 (add_gate g).
Proof.
  intros d a d' H. injection H as _ <-. exists [g]. split; reflexivity.
Qed.

Lemma logs_on_state (on_none : exn) (f : State -> option State) :
  logs 0 (on_state on_none f).
Proof.
  intros d a d' H. unfold on_state in H.
  destruct (_state d) as [s|]; [|discriminate H].
  destruct (f s) as [s'|]; [|discriminate H].
  injection H as _ <-. exists []. cbn. rewrite app_nil_r. split; reflexivity.
Qed.

Lemma logs_bind {A B : Type} (n1 n2 : nat) (m : M A) (k : A -> M B) :
  logs n1 m -> (forall a, logs n2 (k a)) -> logs (n1 + n2) (bind m k).
Proof.
  intros Hm Hk d b d' H. unfold bind in H.
  destruct (m d) as [[a|e] d1] eqn:Hmd; [|discriminate H].
  destruct (Hm _ _ _ Hmd) as (gs1 & Hg1 & Hl1).
  destruct (Hk a _ _ _ H) as (gs2 & Hg2 & Hl2).
  exists (gs1 ++ gs2). split.
  - rewrite Hg2, Hg1, app_assoc. reflexivity.
  - rewrite length_app, Hl1, Hl2. reflexivity.
Qed.

(** A statement that does not log in front of the rest, and a logged
    gate in front of the rest. *)
Lemma logs_after {A B : Type} (n : nat) (m : M A) (k : A -> M B) :
  logs 0 m -> (forall a, logs n (k a)) -> logs n (bind m k).
Proof. intros Hm Hk. change n with (0 + n). apply logs_bind; assumption. Qed.

Lemma logs_gate_then {B : Type} (n : nat) (g : Gate) (k : unit -> M B) :
  (forall a, logs n (k a)) -> logs (Datatypes.S n) (bind (add_gate g) k).
Proof.
  intros Hk. change (Datatypes.S n) with (1 + n).
  apply logs_bind; [apply logs_add_gate | exact Hk].
Qed.

Ltac pure_tac' :=
  repeat first
    [ apply pure_ret | apply pure_raise | apply pure_lift | apply pure_rot_gate
    | apply pure_bind; [|intros ?]
    | match goal with
      | |- pure (if ?c then _ else _) => destruct c
      | |- pure (match ?x with _ => _ end) => destruct x
      end ].

Ltac logs_tac :=
  repeat first
    [ apply logs_raise
    | apply logs_on_state
    | apply logs_pure; solve [pure_tac']
    | apply logs_gate_then; intros ?
    | apply logs_after; [solve [first [apply logs_on_state
                                      | apply logs_pure; solve [pure_tac']]]
                        | intros ?]
    | match goal with
      | |- logs _ (if ?c then _ else _) => destruct c
      | |- logs _ (match ?x with _ => _ end) => destruct x
      end ].

Lemma is_state_loading_cases (nm : string) :
  is_state_loading nm =
    (String.eqb nm "QubitStateVector" || String.eqb nm "BasisState")%bool.
Proof. unfold is_state_loading. apply orb_comm. Qed.

Lemma logs_apply_op (i : nat) (op : Operation) :
  logs (gate_count op) (apply_op i op).
Proof.
  rewrite apply_op_guard.
  destruct ((0 <? i) && is_state_loading (name op)); [apply logs_raise|].
  unfold gate_count. rewrite is_state_loading_cases.
  unfold apply_op, update. change (0 <? 0) with false. cbn [andb].
  destruct op as [nm ws ps]. cbn [name wires parameters].
  destruct (String.eqb_spec nm "QubitStateVector") as [->|H1];
    [cbn [orb]; logs_tac|].
  destruct (String.eqb_spec nm "BasisState") as [->|H2];
    [cbn [orb]; logs_tac|].
  cbn [orb].
  destruct (String.eqb_spec nm "QubitUnitary") as [->|H3];
    [cbn; logs_tac|].
  destruct (String.eqb_spec nm "Rot") as [->|H4]; [logs_tac|].
  logs_tac.
Qed.

(** The gates a sequence of operations adds to the log. *)
Lemma logs_apply_from (ops : list Operation) :
  forall k, logs (list_sum (map gate_count ops)) (apply_from k ops).
Proof.
  induction ops as [|op ops IH]; intros k; cbn [apply_from map list_sum].
  - apply logs_pure, pure_ret.
  - apply logs_bind; [apply logs_apply_op | intros _; apply IH].
Qed.

(** X7.  When [apply] returns, the circuit log has grown by the gates
    of its operations and by nothing else: no gate for a [BasisState]
    or [QubitStateVector], three gates for a [Rot], one gate for every
    other operation. *)
Theorem apply_log_growth (ops : list Operation) (d d' : Device) :
  apply ops d = (Ok tt, d') ->
  exists gs, _circuit d' = _circuit d ++ gs /\
             length gs = list_sum (map gate_count ops).
Proof. intros H. exact (logs_apply_from ops 0 _ H). Qed.

(** ** One call or two *)

Lemma apply_from_head (k : nat) (ops : list Operation) :
  (forall op, hd_error ops = Some op -> is_state_loading (name op) = false) ->
  apply_from k ops = apply_from 0 ops.
Proof.
  intros Hhd. destruct ops as [|op rest]; [reflexivity|].
  cbn [apply_from].
  rewrite (apply_op_any_position k op) by (apply Hhd; reflexivity).
  destruct k as [|k]; [reflexivity|].
  rewrite (apply_from_later rest (Datatypes.S k) 0). reflexivity.
Qed.

(** X8.  One call of [apply] on a concatenation is two calls in a row,
    the second made only when the first returned, provided the second
    list does not begin with a [BasisState] or [QubitStateVector]. *)
Theorem apply_concatenation (ops1 ops2 : list Operation) (d : Device) :
  (forall op, hd_error ops2 = Some op -> is_state_loading (name op) = false) ->
  apply (ops1 ++ ops2) d = (apply ops1 ;; apply ops2) d.
Proof.
  intros Hhd. unfold apply, bind. rewrite apply_from_app.
  destruct (apply_from 0 ops1 d) as [[[]|e] d1]; [|reflexivity].
  rewrite (apply_from_head _ ops2 Hhd). reflexivity.
Qed.

End LogFacts.

(* ================================================================== *)
(** * The branches of the loop body *)
(* ================================================================== *)

Section PackBits.
Local Open Scope Z_scope.

(** The loop of lines 222-224 run over the reversed bits is a fold
    from the right over the bits as given. *)
Lemma pack_bits_rev (b : list int) :
  pack_bits (rev b)
  = fold_right (fun bit basis_state => Z.lor (Z.shiftl basis_state 1) bit) 0 b.
Proof.
  unfold pack_bits. rewrite <- fold_left_rev_right, rev_involutive. reflexivity.
Qed.

Lemma lor_shift_bit (a x : int) :
  0 <= a -> is_bit x -> Z.lor (Z.shiftl a 1) x = 2 * a + x.
Proof.
  intros Ha [-> | ->].
  - rewrite Z.lor_0_r, Z.shiftl_mul_pow2 by lia. lia.
  - rewrite Z.shiftl_mul_pow2 by lia.
    destruct a as [|p|p]; [reflexivity | | lia].
    change (Z.pos p * 2 ^ 1) with (Z.pos p * 2).
    replace (Z.pos p * 2) with (Z.pos p~0) by lia. reflexivity.
Qed.

Lemma pack_bits_rev_range (b : list int) :
  Forall is_bit b ->
  0 <= pack_bits (rev b) < 2 ^ Z.of_nat (length b).
Proof.
  intros Hb. rewrite pack_bits_rev.
  induction Hb as [|x b Hx Hb IH]; cbn [fold_right length].
  - cbn. lia.
  - rewrite lor_shift_bit by (try exact Hx; lia).
    rewrite Nat2Z.inj_succ, Z.pow_succ_r by lia.
    destruct Hx as [-> | ->]; lia.
Qed.

Lemma pack_bits_rev_testbit (b : list int) :
  Forall is_bit b ->
  forall k : nat,
    Z.testbit (pack_bits (rev b)) (Z.of_nat k) = Z.eqb (nth k b 0) 1.
Proof.
  intros Hb. rewrite pack_bits_rev.
  induction Hb as [|x b Hx Hb IH]; intros k; cbn [fold_right nth].
  - destruct k; apply Z.testbit_0_l.
  - rewrite Z.lor_spec. destruct k as [|k].
    + cbn [nth Z.of_nat]. rewrite Z.shiftl_spec by lia.
      rewrite Z.testbit_neg_r by lia.
      destruct Hx as [-> | ->]; reflexivity.
    + cbn [nth]. rewrite Z.shiftl_spec by lia.
      replace (Z.of_nat (Datatypes.S k) - 1) with (Z.of_nat k) by lia.
      rewrite IH.
      assert (Hhi : Z.testbit x (Z.of_nat (Datatypes.S k)) = false).
      { destruct Hx as [-> | ->].
        - apply Z.testbit_0_l.
        - rewrite Nat2Z.inj_succ. rewrite <- Z.add_1_r.
          change 1 with (2 ^ 0) at 1.
          rewrite Z.pow2_bits_eqb by lia.
          apply Z.eqb_neq. lia. }
      rewrite Hhi, orb_false_r. reflexivity.
Qed.

(** X9.  The basis index packed from the bits of a [BasisState] lies
    between 0 and [2^n - 1] for [n] bits, and its bit [k] is the bit the
    caller gave for wire [k] (the entry [k] of the parameter): the
    reversal of line 214 followed by the big-endian packing of lines
    222-224 puts the first wire on the lowest bit. *)
Theorem basis_index_of_bits (b : list int) :
  Forall is_bit b ->
  0 <= pack_bits (slice_reversed b) < 2 ^ Z.of_nat (length b) /\
  forall k : nat,
    Z.testbit (pack_bits (slice_reversed b)) (Z.of_nat k) = Z.eqb (nth k b 0) 1.
Proof.
  intros Hb. unfold slice_reversed. split.
  - apply pack_bits_rev_range, Hb.
  - apply pack_bits_rev_testbit, Hb.
Qed.

Lemma basis_index_of_bits_witness :
  Forall is_bit [1; 0; 1; 1] /\
  pack_bits (slice_reversed [1; 0; 1; 1]) = 13 /\
  0 <= pack_bits (slice_reversed [1; 0; 1; 1]) < 2 ^ Z.of_nat (length [1; 0; 1; 1]).
Proof.
  assert (H : Forall is_bit [1; 0; 1; 1])
    by (repeat constructor; unfold is_bit; lia).
  split; [exact H|]. split; [reflexivity|].
  exact (proj1 (basis_index_of_bits H)).
Defined.

End PackBits.

Section BranchFacts.
Context {S : Scalars} {E : Engine}.
Local Open Scope device_scope.

Lemma forallb_bits (b : list int) :
  forallb (fun x => Z.eqb x 0 || Z.eqb x 1) b = true <-> Forall is_bit b.
Proof.
  rewrite forallb_forall, Forall_forall. unfold is_bit.
  split; intros H x Hx; specialize (H x Hx).
  - apply orb_true_iff in H. destruct H as [H | H]; apply Z.eqb_eq in H; auto.
  - apply orb_true_iff. destruct H as [-> | ->]; auto.
Qed.

(** The [BasisState] branch at the first position. *)
Lemma apply_op_BasisState (ws : list nat) (b : list int) (ps : list PVal)
    (d : Device) :
  apply_op 0 (mk_op "BasisState" ws (PBits b :: ps)) d =
    if negb (forallb (fun x => Z.eqb x 0 || Z.eqb x 1) (rev b)) then
      (Err ValueError_basis_bits, d)
    else if negb (length b =? length ws) then
      (Err ValueError_basis_length, d)
    else
      on_state AttributeError
        (fun s => set_computational_basis s (pack_bits (rev b))) d.
Proof.
  unfold apply_op, slice_reversed.
  cbn -[Nat.eqb pack_bits]. unfold bind, lift. cbn -[Nat.eqb pack_bits].
  rewrite !length_rev.
  destruct (forallb (fun x => Z.eqb x 0 || Z.eqb x 1) (rev b)); cbn [negb];
    [|reflexivity].
  destruct (length b =? length ws); reflexivity.
Qed.

(** X10.  A [BasisState] at the head of the sequence.  A bit other
    than 0 and 1 gives the DomainError, also when the number of bits is
    wrong as well; bits that are all 0 or 1 but not as many as the
    wires give the LengthError; both leave the device as it was.
    Otherwise the engine is asked for the basis state of the packed
    index, and when it accepts, the state is the engine's new state and
    the circuit log is unchanged. *)
Theorem BasisState_first (ws : list nat) (b : list int) (ps : list PVal)
    (rest : list Operation) (d : Device) :
  let op := mk_op "BasisState" ws (PBits b :: ps) in
  (~ Forall is_bit b ->
   apply (op :: rest) d = (Err ValueError_basis_bits, d)) /\
  (Forall is_bit b -> length b <> length ws ->
   apply (op :: rest) d = (Err ValueError_basis_length, d)) /\
  (Forall is_bit b -> length b = length ws ->
   forall s s',
     _state d = Some s ->
     set_computational_basis s (pack_bits (slice_reversed b)) = Some s' ->
     apply [op] d = (Ok tt, mk_device (num_wires d) (Some s') (_circuit d))).
Proof.
  intros op. unfold apply, op.
  split; [|split].
  - intros Hb. rewrite apply_from_cons, apply_op_BasisState.
    assert (Hf : forallb (fun x => Z.eqb x 0 || Z.eqb x 1) (rev b) = false).
    { destruct (forallb (fun x => Z.eqb x 0 || Z.eqb x 1) (rev b)) eqn:Hf;
        [|reflexivity].
      exfalso. apply Hb. apply forallb_bits in Hf.
      apply Forall_rev in Hf. rewrite rev_involutive in Hf. exact Hf. }
    rewrite Hf. reflexivity.
  - intros Hb Hlen. rewrite apply_from_cons, apply_op_BasisState.
    assert (Hf : forallb (fun x => Z.eqb x 0 || Z.eqb x 1) (rev b) = true).
    { apply forallb_bits, Forall_rev, Hb. }
    rewrite Hf. apply Nat.eqb_neq in Hlen. rewrite Hlen. reflexivity.
  - intros Hb Hlen s s' Hs Hset. rewrite apply_from_cons, apply_op_BasisState.
    assert (Hf : forallb (fun x => Z.eqb x 0 || Z.eqb x 1) (rev b) = true).
    { apply forallb_bits, Forall_rev, Hb. }
    rewrite Hf, Hlen, Nat.eqb_refl. cbn [negb].
    unfold on_state. rewrite Hs. unfold slice_reversed in Hset. rewrite Hset.
    reflexivity.
Qed.



(** ** Names looked up in the operation map *)

Lemma dict_get_missing {V : Type} (dict : list (string * V)) (key : string) :
  ~ In key (map fst dict) -> dict_get dict key = Err (KeyError key).
Proof.
  induction dict as [|[k v] dict IH]; cbn [dict_get map fst In]; intros H.
  - reflexivity.
  - destruct (String.eqb_spec k key) as [->|Hne].
    + exfalso. apply H. left. reflexivity.
    + apply IH. intros Hin. apply H. right. exact Hin.
Qed.

(** The branch a name takes when it is none of the names the loop body
    tests for. *)
Lemma apply_op_else (nm : string) (ws : list nat) (ps : list PVal) (d : Device) :
  ~ In nm ["QubitStateVector"; "BasisState"; "QubitUnitary"; "Rot"; "CRZ";
           "Toffoli"; "CSWAP"]%string ->
  apply_op 0 (mk_op nm ws ps) d =
    match dict_get _operation_map nm with
    | Ok (MappedNative ctor) =>
        apply_gate (Native ctor (map AWire (rev ws) ++ map APar (map np_negative ps))) d
    | Ok _ => (Err TypeError, d)
    | Err e => (Err e, d)
    end.
Proof.
  intros Hnot. unfold apply_op, slice_reversed.
  cbn [name wires parameters]. change (0 <? 0) with false. cbn [andb].
  repeat match goal with
  | |- context [String.eqb nm ?c] =>
      destruct (String.eqb_spec nm c) as [Heq|_];
      [exfalso; apply Hnot; rewrite Heq; cbn; tauto|]
  end.
  cbn [orb]. unfold bind at 1, lift.
  destruct (dict_get _operation_map nm) as [[| | |ctor]|e]; reflexivity.
Qed.


(** X14.  An operation whose name is not a key of the operation map,
    at any position, raises the [KeyError] of the lookup (the
    UnsupportedOperationError) and leaves the device as it was: nothing
    is logged and nothing is applied. *)
Theorem unknown_operation_raises (i : nat) (nm : string) (ws : list nat)
    (ps : list PVal) (d : Device) :
  ~ In nm (map fst _operation_map) ->
  apply_op i (mk_op nm ws ps) d = (Err (KeyError nm), d) /\
  kind_of (KeyError nm) = UnsupportedOperationError.
Proof.
  intros Hkey. split; [|reflexivity].
  assert (Hnot : ~ In nm ["QubitStateVector"; "BasisState"; "QubitUnitary";
                          "Rot"; "CRZ"; "Toffoli"; "CSWAP"]%string).
  { intros Hin. apply Hkey. cbn [In] in Hin. cbn.
    repeat (destruct Hin as [<- | Hin]; [tauto|]). destruct Hin. }
  rewrite apply_op_any_position.
  - rewrite (apply_op_else ws ps d Hnot), (dict_get_missing _ _ Hkey).
    reflexivity.
  - cbn [name]. unfold is_state_loading.
    destruct (String.eqb_spec nm "BasisState") as [->|_];
      [exfalso; apply Hnot; cbn; tauto|].
    destruct (String.eqb_spec nm "QubitStateVector") as [->|_];
      [exfalso; apply Hnot; cbn; tauto|].
    reflexivity.
Qed.


End BranchFacts.

(* ================================================================== *)
(** * Devices in use *)
(* ================================================================== *)

Section ReachableFacts.
Context {S : Scalars} {E : Engine} {Q : QubitDevice} {L : EngineStates}.
Local Open Scope device_scope.

Lemma reset_with_state (d : Device) (s : State) :
  _state d = Some s ->
  reset d = (Ok tt, mk_device (num_wires d) (Some (set_zero_state s)) []).
Proof.
  intros Hs. unfold reset, bind, on_state, new_circuit. rewrite Hs. reflexivity.
Qed.

Lemma reachable_invariant (gpu_supported : bool) (n : nat) (d : Device) :
  reachable gpu_supported n d -> num_wires d = n /\ _state d <> None.
Proof.
  intros H. induction H as [gpu d Hinit | ops d d' r _ IH Happ | d d' r _ IH Hres].
  - unfold __init__ in Hinit.
    destruct gpu; [destruct (negb gpu_supported); [discriminate Hinit|]|];
      injection Hinit as <-; split; [reflexivity | discriminate | reflexivity | discriminate].
  - destruct IH as [Hn Hs].
    destruct (frames_apply_from ops 0 _ Happ) as (Hw & _ & Hc).
    split; [congruence|]. intros Hnone. apply Hs, Hc, Hnone.
  - destruct IH as [Hn Hs].
    destruct (_state d) as [s|] eqn:Hsd; [|destruct (Hs eq_refl)].
    rewrite (reset_with_state d Hsd) in Hres. injection Hres as _ <-.
    split; [exact Hn | discriminate].
Qed.

(** X16.  On every device built by [__init__] and then used by any
    calls of [apply] and [reset], returned from or raised out of, the
    number of wires is the one given at construction and the state
    container is there.  So [analytic_probability] never takes its
    [None] exit on such a device, and [reset] never raises on it: it
    returns with the engine's zero state and an empty circuit log. *)
Theorem devices_in_use_hold_a_state (gpu_supported : bool) (n : nat)
    (d : Device) :
  reachable gpu_supported n d ->
  num_wires d = n /\
  (exists s, _state d = Some s /\
             reset d = (Ok tt, mk_device n (Some (set_zero_state s)) [])) /\
  (forall wires, analytic_probability wires d <> Ok None).
Proof.
  intros H. destruct (reachable_invariant H) as [Hn Hs].
  destruct (_state d) as [s|] eqn:Hsd; [|destruct (Hs eq_refl)].
  split; [exact Hn|]. split.
  - exists s. split; [reflexivity|]. rewrite <- Hn. apply reset_with_state, Hsd.
  - intros wires. unfold analytic_probability. rewrite Hsd.
    destruct (state d); cbn [bindR]; discriminate.
Qed.

End ReachableFacts.

(* ================================================================== *)
(** * More on the validator and on the constants *)
(* ================================================================== *)

Section HermitianConverse.
Context {S : Scalars}.

(** X17.  What [hermitian] returns is its argument, and it returns
    only on a matrix with as many rows as its first row is long that
    passes the tolerance test against its conjugate transpose.  On the
    empty list, whose shape has one axis only, the subscript
    [A.shape[1]] raises [IndexError], not a ValidationError. *)
Theorem hermitian_returns_its_argument (A B : cmatrix) :
  (hermitian A = Ok B ->
   B = A /\ A <> [] /\ is_square A = true /\
   allclose A (conj_transpose A) = true) /\
  hermitian (@nil (list Complex)) = Err IndexError.
Proof.
  split; [|reflexivity].
  unfold hermitian, is_square. destruct A as [|r rs]; cbn [shape_of hd].
  - discriminate.
  - destruct (length (r :: rs) =? length r); cbn [negb]; [|discriminate].
    destruct (allclose (r :: rs) (conj_transpose (r :: rs))); cbn [negb];
      [|discriminate].
    intros H. injection H as <-.
    split; [reflexivity|]. split; [discriminate|]. split; reflexivity.
Qed.

End HermitianConverse.

Module ConstantFacts.
Import Matrices.

(** X18.  The constant [CSWAP] of line 61, the block diagonal of
    [SWAP], [I], [I], is the 8x8 permutation matrix that exchanges the
    two low bits of the index when the high bit is 0 and fixes the
    basis states whose high bit is 1: it exchanges the basis states 1
    and 2 only.  It is not the matrix of a swap made when a control
    bit is 1, for any placement of the control and the two targets. *)
Theorem CSWAP_constant_evaluated :
  is_permutation_matrix 8 CSWAP = true /\
  matrix_eqb CSWAP (permutation_matrix 8 (controlled_swap false 2 1 0)) = true /\
  map (image_of CSWAP) (seq 0 8) = [0; 2; 1; 3; 4; 5; 6; 7] /\
  forallb (fun a : nat * nat * nat =>
             let '(c, t1, t2) := a in
             negb (matrix_eqb CSWAP
                     (permutation_matrix 8 (controlled_swap true c t1 t2))))
          swap_assignments = true.
Proof.
  split; [reflexivity|]. split; [vm_compute; reflexivity|].
  split; [reflexivity|]. vm_compute. reflexivity.
Qed.

End ConstantFacts.

(* ================================================================== *)
(** * Further runs on the exact instance *)
(* ================================================================== *)

Module MoreRuns.
Import Exact.
Local Open Scope string_scope.
Local Open Scope Q_scope.

Lemma validation_errors_leave_no_trace_witness :
  let d' := snd (apply unitary_in_the_middle (new_device 1)) in
  apply unitary_in_the_middle (new_device 1) = (Err ValueError_unitary_shape, d') /\
  kind_of ValueError_unitary_shape <> OtherError /\
  exists i, (i < length unitary_in_the_middle)%nat /\
            apply (firstn i unitary_in_the_middle) (new_device 1) = (Ok tt, d').
Proof.
  intros d'.
  assert (Hk : kind_of ValueError_unitary_shape <> OtherError) by discriminate.
  split; [reflexivity|]. split; [exact Hk|].
  exact (validation_errors_leave_no_trace unitary_in_the_middle (new_device 1)
           (d' := d') eq_refl Hk).
Defined.

Lemma apply_log_growth_witness :
  let d' := snd (apply hadamard_rot_x (new_device 1)) in
  apply hadamard_rot_x (new_device 1) = (Ok tt, d') /\
  exists gs, _circuit d' = (_circuit (new_device 1) ++ gs)%list /\
             length gs = 5%nat.
Proof.
  intros d'. split; [reflexivity|].
  exact (apply_log_growth hadamard_rot_x (new_device 1) (d' := d') eq_refl).
Defined.

Lemma apply_concatenation_witness :
  (forall op, hd_error [mk_op "Hadamard" [0]%nat []] = Some op ->
              is_state_loading (name op) = false) /\
  apply ([basis_one_zero] ++ [mk_op "Hadamard" [0]%nat []])%list (new_device 2)
  = (apply [basis_one_zero] ;; apply [mk_op "Hadamard" [0]%nat []])%device
      (new_device 2).
Proof.
  assert (H : forall op, hd_error [mk_op "Hadamard" [0]%nat []] = Some op ->
                         is_state_loading (name op) = false).
  { intros op Hop. injection Hop as <-. reflexivity. }
  split; [exact H|].
  exact (apply_concatenation [basis_one_zero] [mk_op "Hadamard" [0]%nat []]
           (new_device 2) H).
Defined.

Lemma BasisState_first_witness :
  Forall is_bit [1%Z; 0%Z] /\
  length [1%Z; 0%Z] = length [0; 1]%nat /\
  apply [basis_one_zero] (new_device 2)
  = (Ok tt, mk_device 2 (Some (mk_trace 2 (basis_vector 2 1) [])) []).
Proof.
  assert (Hb : Forall is_bit [1%Z; 0%Z])
    by (constructor; [right; reflexivity | constructor; [left; reflexivity | constructor]]).
  split; [exact Hb|]. split; [reflexivity|].
  exact (proj2 (proj2 (BasisState_first [0; 1]%nat [1%Z; 0%Z] [] [] (new_device 2)))
           Hb eq_refl
           (mk_trace 2 (basis_vector 2 0) [])
           (mk_trace 2 (basis_vector 2 1) []) eq_refl eq_refl).
Defined.




Lemma unknown_operation_raises_witness :
  ~ In "PhaseShift" (map fst _operation_map) /\
  apply_op 0 (mk_op "PhaseShift" [0]%nat [PReal (1 # 2)]) (new_device 1)
  = (Err (KeyError "PhaseShift"), new_device 1).
Proof.
  assert (H : ~ In "PhaseShift" (map fst _operation_map)).
  { cbn. intros Hin.
    repeat (destruct Hin as [Hin | Hin]; [discriminate Hin|]). exact Hin. }
  split; [exact H|].
  exact (proj1 (unknown_operation_raises 0 [0]%nat
                  [PReal (1 # 2)] (new_device 1) H)).
Defined.

Lemma devices_in_use_hold_a_state_witness :
  let d := snd (apply bad_unitary_then_basis_state (new_device 1)) in
  reachable true 1 d /\
  num_wires d = 1%nat /\
  (forall wires, analytic_probability wires d <> Ok None).
Proof.
  intros d.
  assert (H : reachable true 1 d).
  { apply reach_apply with (ops := bad_unitary_then_basis_state)
                           (d := new_device 1)
                           (r := Err ValueError_unitary_shape).
    - apply reach_init with (gpu := false). reflexivity.
    - reflexivity. }
  split; [exact H|].
  split.
  - exact (proj1 (devices_in_use_hold_a_state H)).
  - exact (proj2 (proj2 (devices_in_use_hold_a_state H))).
Defined.

Lemma hermitian_returns_its_argument_witness :
  let pauli_z : @cmatrix scalars := map (map of_int) Matrices.Z in
  hermitian pauli_z = Ok pauli_z /\
  is_square pauli_z = true /\
  allclose pauli_z (conj_transpose pauli_z) = true.
Proof.
  intros pauli_z.
  assert (H : hermitian pauli_z = Ok pauli_z) by (vm_compute; reflexivity).
  split; [exact H|].
  exact (proj2 (proj2 (proj1 (hermitian_returns_its_argument pauli_z pauli_z) H))).
Defined.

End MoreRuns.

(* ================================================================== *)
(** * The norm test and the probabilities *)
(* ================================================================== *)

Section NormAndProbabilities.
Context {S : Scalars} {E : Engine} {Q : QubitDevice}.
Local Open Scope device_scope.

(** X19.  A [QubitStateVector] at the head of the sequence whose
    vector has the right length: the norm test of line 206 is made on
    the reversed vector, after the length test, and when it fails
    [apply] raises the NormalizationError with the device as it was. *)
Theorem state_vector_not_normalized (ws : list nat) (v w : list Complex)
    (ps : list PVal) (rest : list Operation) (d : Device) :
  length v = 2 ^ length ws ->
  _reverse_state v = Ok w ->
  norm_isclose_one w = false ->
  apply (mk_op "QubitStateVector" ws (PVector v :: ps) :: rest) d
  = (Err ValueError_not_normalized, d).
Proof.
  intros Hlen Hrev Hnorm. unfold apply.
  rewrite apply_from_cons, apply_op_QubitStateVector, Hrev.
  rewrite (reverse_state_length _ Hrev), Hlen, Nat.eqb_refl, Hnorm.
  reflexivity.
Qed.

(** X20.  On a device whose engine holds a vector of [2^N] amplitudes,
    [analytic_probability] returns the marginal, over the wires as the
    caller listed them (all the wires when the list is absent or
    empty), of [2^N] probabilities in the caller's ordering: the
    probability at the index with the bits [bs] is the squared
    magnitude of the engine's amplitude at the index with the bits
    reversed. *)
Theorem analytic_probability_of_engine_vector (wires : option (list nat))
    (d : Device) (s : State) (N : nat) :
  _state d = Some s ->
  length (get_vector s) = 2 ^ N ->
  exists all_probs,
    analytic_probability wires d
    = Ok (Some (marginal_prob (num_wires d) all_probs
                  (wires_or_range wires (num_wires d)))) /\
    length all_probs = 2 ^ N /\
    forall (bs : list bool) (z : Complex),
      length bs = N ->
      nth (of_bits bs) all_probs (abs_squared z)
      = abs_squared (nth (of_bits (rev bs)) (get_vector s) z).
Proof.
  intros Hs Hlen.
  destruct (reverse_state_twice (get_vector s) N Hlen) as (w & Hrev & Hlw & _).
  exists (map abs_squared w). split; [|split].
  - unfold analytic_probability, state. rewrite Hs, Hrev. reflexivity.
  - rewrite length_map. exact Hlw.
  - intros bs z Hbs. rewrite map_nth.
    f_equal. apply ReversalFacts.reverse_state_nth_bits with (N := N); assumption.
Qed.

End NormAndProbabilities.

Module NormRuns.
Import Exact.
Local Open Scope string_scope.
Local Open Scope Q_scope.

Lemma state_vector_not_normalized_witness :
  length not_unit = (2 ^ length [0%nat])%nat /\
  _reverse_state not_unit = Ok not_unit /\
  norm_isclose_one not_unit = false /\
  apply [mk_op "QubitStateVector" [0]%nat [PVector not_unit]] (new_device 1)
  = (Err ValueError_not_normalized, new_device 1).
Proof.
  split; [reflexivity|]. split; [reflexivity|]. split; [reflexivity|].
  exact (state_vector_not_normalized [0%nat] not_unit (w := not_unit)
           [] [] (new_device 1) eq_refl eq_refl eq_refl).
Defined.

Lemma analytic_probability_of_engine_vector_witness :
  _state (new_device 2) = Some (mk_trace 2 (basis_vector 2 0) []) /\
  length (get_vector (mk_trace 2 (basis_vector 2 0) [])) = (2 ^ 2)%nat /\
  exists all_probs,
    analytic_probability (Some [1%nat]) (new_device 2)
    = Ok (Some (marginal_prob 2 all_probs [1%nat])) /\
    length all_probs = (2 ^ 2)%nat.
Proof.
  split; [reflexivity|]. split; [reflexivity|].
  destruct (analytic_probability_of_engine_vector (Some [1%nat]) (new_device 2)
              (s := mk_trace 2 (basis_vector 2 0) []) 2 eq_refl eq_refl)
    as (all_probs & Hp & Hl & _).
  exists all_probs. split; [exact Hp | exact Hl].
Defined.

End NormRuns.
